(** * PyCKTools: the class-model extractor of [pycktools/parser/code_parser.py]

    A shallow embedding of [CodeParser]: the syntax tree it receives from
    astroid, the logical-line counter, and the extraction walk over the
    shared parser state, followed by the properties of the extractor. *)

From stdpp Require Import gmap strings list fin_maps.
From Stdlib Require Import ZArith Lia Ascii.

Set Warnings "-register-all".

Open Scope Z_scope.
Open Scope string_scope.

(** ** Syntax trees

    The node kinds of astroid that [CodeParser] dispatches on with
    [isinstance], with the fields it reads. *)

Inductive expr : Type :=
| Name (name : string)
| Const (repr : string)
| Attribute (receiver : expr) (attrname : string)
| Call (func : expr) (args : list expr) (keywords : list (string * expr)).

(** What [next(target.infer(), None)] does for an assignment target:
    astroid raises [InferenceError] when it infers nothing (a name that
    resolves to nothing), or the generator yields [Uninferable], or it
    yields an object whose [pytype()] is a string. astroid does not end the
    generator without a result, so the default [None] is never taken. *)
Inductive inferred : Type :=
| InferenceFails
| Uninferable
| Instance (pytype : string).

Inductive target : Type :=
| AssignName (name : string)
| AssignAttr (receiver : expr) (attrname : string) (infer : inferred)
| TupleTarget (elts : list target)
| SubscriptTarget (value : expr) (slice : expr).

Inductive stmt : Type :=
| Assign (targets : list target) (value : expr)
| AugAssign (tgt : target) (op : string) (value : expr)
| AnnAssign (tgt : target) (annotation : expr) (value : option expr)
| Expr (value : expr)
| Return (value : option expr)
| Raise (exc : option expr)
| Delete (targets : list target)
| Pass
| Break
| Continue
| Global (names : list string)
| Nonlocal (names : list string)
| Assert (test : expr)
| Import (names : list string)
| ImportFrom (modname : string) (names : list string)
| If (test : expr) (body orelse : list stmt)
| For (tgt : target) (iter : expr) (body orelse : list stmt)
| While (test : expr) (body orelse : list stmt)
| Try (body : list stmt) (handlers : list except_handler)
      (orelse finalbody : list stmt)
| With (items : list expr) (body : list stmt)
| FunctionDef (name : string) (args : list string) (body : list stmt)
| AsyncFunctionDef (name : string) (args : list string) (body : list stmt)
| ClassDef (name : string) (bases : list expr) (body : list stmt)
with except_handler : Type :=
| ExceptHandler (type : option expr) (name : option string)
                (body : list stmt).

Inductive node : Type :=
| StmtNode (s : stmt)
| ExprNode (e : expr)
| TargetNode (t : target)
| HandlerNode (h : except_handler)
| ModuleNode (body : list stmt).

(** ** Exceptions *)

Inductive exn : Type :=
| ValueError
| TypeError
| AttributeError
| KeyError
| IndexError
| InferenceError.

Inductive result (A : Type) : Type :=
| Ok (a : A)
| Raised (e : exn).
Arguments Ok {A} a.
Arguments Raised {A} e.

(** ** Logical lines of code *)

(** [isinstance(child, (Assign, AugAssign, AnnAssign, Expr, Return, Raise,
    Delete, Pass, Break, Continue, Global, Nonlocal, Assert, Import,
    ImportFrom))] *)
Definition is_simple_statement (child : stmt) : bool :=
  match child with
  | Assign _ _ | AugAssign _ _ _ | AnnAssign _ _ _ | Expr _ | Return _
  | Raise _ | Delete _ | Pass | Break | Continue | Global _ | Nonlocal _
  | Assert _ | Import _ | ImportFrom _ _ => true
  | _ => false
  end.

(** [isinstance(child, (If, For, While, Try, With))] *)
Definition is_compound_statement (child : stmt) : bool :=
  match child with
  | If _ _ _ | For _ _ _ _ | While _ _ _ | Try _ _ _ _ | With _ _ => true
  | _ => false
  end.

(** [isinstance(node, (FunctionDef, AsyncFunctionDef))] *)
Definition is_function_def (n : node) : bool :=
  match n with
  | StmtNode (FunctionDef _ _ _) | StmtNode (AsyncFunctionDef _ _ _) => true
  | _ => false
  end.

(** The loop shared by the counters: [for child in children: ...] with the
    running total [lloc]; [count] is the recursive call on a compound child. *)
Section CountLoop.
Variable count : stmt -> result Z.

Fixpoint count_children (children : list stmt) (lloc : Z) : result Z :=
  match children with
  | [] => Ok lloc
  | child :: rest =>
      if is_simple_statement child then count_children rest (lloc + 1)
      else if is_compound_statement child then
        match count child with
        | Ok n => count_children rest (lloc + n)
        | Raised e => Raised e
        end
      else count_children rest lloc
  end.
End CountLoop.

(** [count_lloc_in_compound_statement]: 1 for the statement, then the loop
    over [node.body], then the loop over [getattr(node, 'orelse', [])]. A
    node without a [body] attribute raises [AttributeError]. *)
Fixpoint count_lloc_in_compound_statement (n : stmt) : result Z :=
  let loop := count_children count_lloc_in_compound_statement in
  match n with
  | If _ body orelse | For _ _ body orelse | While _ body orelse
  | Try body _ orelse _ =>
      match loop body 1 with
      | Ok lloc => loop orelse lloc
      | Raised e => Raised e
      end
  | With _ body | FunctionDef _ _ body | AsyncFunctionDef _ _ body
  | ClassDef _ _ body =>
      match loop body 1 with
      | Ok lloc => loop [] lloc
      | Raised e => Raised e
      end
  | _ => Raised AttributeError
  end.

(** [count_lloc] *)
Definition count_lloc (n : node) : result Z :=
  match n with
  | StmtNode (FunctionDef _ _ body) | StmtNode (AsyncFunctionDef _ _ body) =>
      count_children count_lloc_in_compound_statement body 0
  | _ => Raised ValueError
  end.

(** *** The counting rule as the specification words it

    A listed simple statement counts 1; a compound statement counts 1 for
    its header, plus the count of its primary body, plus the count of its
    else body; any other statement counts 0. *)
Section BlockLloc.
Variable lloc_of : stmt -> Z.

Fixpoint block_lloc (block : list stmt) : Z :=
  match block with
  | [] => 0
  | s :: rest => lloc_of s + block_lloc rest
  end.
End BlockLloc.

Fixpoint statement_lloc (s : stmt) : Z :=
  match s with
  | If _ body orelse | For _ _ body orelse | While _ body orelse
  | Try body _ orelse _ =>
      1 + block_lloc statement_lloc body + block_lloc statement_lloc orelse
  | With _ body => 1 + block_lloc statement_lloc body
  | _ => if is_simple_statement s then 1 else 0
  end.

(** Dropping every except handler and every finally block of the try
    statements the counter can reach. *)
Fixpoint erase_handlers (s : stmt) : stmt :=
  match s with
  | If t body orelse =>
      If t (map erase_handlers body) (map erase_handlers orelse)
  | For x it body orelse =>
      For x it (map erase_handlers body) (map erase_handlers orelse)
  | While t body orelse =>
      While t (map erase_handlers body) (map erase_handlers orelse)
  | Try body _ orelse _ =>
      Try (map erase_handlers body) [] (map erase_handlers orelse) []
  | With items body => With items (map erase_handlers body)
  | _ => s
  end.

(** ** Induction over the statements the counter descends into *)
Section CompoundInd.
Variable P : stmt -> Prop.
Hypothesis P_other : forall s, is_compound_statement s = false -> P s.
Hypothesis P_If : forall t body orelse,
    Forall P body -> Forall P orelse -> P (If t body orelse).
Hypothesis P_For : forall x it body orelse,
    Forall P body -> Forall P orelse -> P (For x it body orelse).
Hypothesis P_While : forall t body orelse,
    Forall P body -> Forall P orelse -> P (While t body orelse).
Hypothesis P_Try : forall body handlers orelse finalbody,
    Forall P body -> Forall P orelse ->
    P (Try body handlers orelse finalbody).
Hypothesis P_With : forall items body, Forall P body -> P (With items body).

Fixpoint compound_ind (s : stmt) : P s :=
  let block := fix block (l : list stmt) : Forall P l :=
    match l with
    | [] => @List.Forall_nil stmt P
    | c :: rest => @List.Forall_cons stmt P c rest (compound_ind c) (block rest)
    end in
  match s with
  | If t body orelse => P_If t body orelse (block body) (block orelse)
  | For x it body orelse => P_For x it body orelse (block body) (block orelse)
  | While t body orelse => P_While t body orelse (block body) (block orelse)
  | Try body hs orelse fb => P_Try body hs orelse fb (block body) (block orelse)
  | With items body => P_With items body (block body)
  | s' => P_other s' eq_refl
  end.
End CompoundInd.

(** ** Text of expressions and the string operations of the walk *)

(** [node.as_string()] on the expressions above. *)
Fixpoint as_string (e : expr) : string :=
  match e with
  | Name name => name
  | Const repr => repr
  | Attribute receiver attrname => as_string receiver +:+ "." +:+ attrname
  | Call func args keywords =>
      as_string func +:+ "(" +:+
      String.concat ", "
        (map as_string args ++
         map (fun kw => match kw with
                        | (k, v) => k +:+ "=" +:+ as_string v
                        end) keywords)
      +:+ ")"
  end.

(** ['.' in s] *)
Fixpoint contains_dot (s : string) : bool :=
  match s with
  | EmptyString => false
  | String c rest => if Ascii.eqb c "."%char then true else contains_dot rest
  end.

(** [s.split('.')[0]] *)
Fixpoint split_dot_first (s : string) : string :=
  match s with
  | EmptyString => EmptyString
  | String c rest =>
      if Ascii.eqb c "."%char then EmptyString else String c (split_dot_first rest)
  end.

(** ** The parser's objects

    Python binds names to objects, so a record that is assigned in two
    places is one object. The dictionaries live in a store indexed by
    location; [classes] and the [methods] of a class hold locations. *)

Definition loc := nat.

(** A dictionary with the keys of [_METHOD_INIT]. *)
Record MethodDict : Type := {
  m_accessed_attributes : gset string;
  m_called : gset string;
  m_lloc : Z;
  m_number_of_parameters : Z
}.

(** A dictionary with the keys of [_CLASS_INIT]. *)
Record ClassDict : Type := {
  c_accessed_attributes : gset string;
  c_called : gset string;
  c_methods : gmap string loc;
  c_attributes : gset (string * option string);
  c_variables : gset string;
  c_direct_children : Z;
  c_coupled_classes : gset string
}.

Definition empty_method_dict : MethodDict :=
  {| m_accessed_attributes := ∅; m_called := ∅; m_lloc := 0;
     m_number_of_parameters := 0 |}.

Definition empty_class_dict : ClassDict :=
  {| c_accessed_attributes := ∅; c_called := ∅; c_methods := ∅;
     c_attributes := ∅; c_variables := ∅; c_direct_children := 0;
     c_coupled_classes := ∅ |}.

#[global] Instance MethodDict_inhabited : Inhabited MethodDict :=
  populate empty_method_dict.
#[global] Instance ClassDict_inhabited : Inhabited ClassDict :=
  populate empty_class_dict.

(** The store and the two attributes of a [CodeParser] instance. *)
Record state : Type := {
  class_dicts : gmap loc ClassDict;
  method_dicts : gmap loc MethodDict;
  classes : gmap string loc;
  inheritances : gmap string string
}.

(** The class attributes [_CLASS_INIT] and [_METHOD_INIT]: one dictionary
    each, built when the class statement runs. *)
Definition _CLASS_INIT : loc := 0%nat.
Definition _METHOD_INIT : loc := 0%nat.

(** The state after [CodeParser()]. *)
Definition init_state : state :=
  {| class_dicts := {[ _CLASS_INIT := empty_class_dict ]};
     method_dicts := {[ _METHOD_INIT := empty_method_dict ]};
     classes := ∅;
     inheritances := ∅ |}.

(** What the parameter [dict] of the walk is bound to at a call: a method
    dictionary, or a syntax-tree node. *)
Inductive pyobj : Type :=
| DictObj (l : loc)
| NodeObj (n : stmt).

(** ** A state and exception monad *)

Inductive outcome (A : Type) : Type :=
| Returns (a : A) (st : state)
| Raises (e : exn) (st : state).
Arguments Returns {A} a st.
Arguments Raises {A} e st.

Definition M (A : Type) : Type := state -> outcome A.

Definition ret {A} (a : A) : M A := fun st => Returns a st.

Definition bind {A B} (c : M A) (k : A -> M B) : M B :=
  fun st =>
    match c st with
    | Returns a st' => k a st'
    | Raises e st' => Raises e st'
    end.

Definition raise {A} (e : exn) : M A := fun st => Raises e st.

Definition lift_result {A} (r : result A) : M A :=
  match r with
  | Ok a => ret a
  | Raised e => raise e
  end.

Declare Scope parser_scope.
Delimit Scope parser_scope with parser.
Notation "x <- c ;; k" := (bind c (fun x => k))
  (at level 100, c at next level, right associativity) : parser_scope.
Notation "c ;; k" := (bind c (fun _ => k))
  (at level 100, right associativity) : parser_scope.
Open Scope parser_scope.

Section ForEach.
Context {A : Type}.
Variable f : A -> M unit.

(** [for x in xs: f(x)] *)
Fixpoint for_each (xs : list A) : M unit :=
  match xs with
  | [] => ret tt
  | x :: rest => f x ;; for_each rest
  end.
End ForEach.

Definition when (b : bool) (c : M unit) : M unit :=
  if b then c else ret tt.

(** ** Operations on the store *)

Definition set_class_dicts (h : gmap loc ClassDict) (st : state) : state :=
  {| class_dicts := h; method_dicts := method_dicts st;
     classes := classes st; inheritances := inheritances st |}.

Definition set_method_dicts (h : gmap loc MethodDict) (st : state) : state :=
  {| class_dicts := class_dicts st; method_dicts := h;
     classes := classes st; inheritances := inheritances st |}.

(** In-place update of the class dictionary at [l]. *)
Definition update_class (l : loc) (f : ClassDict -> ClassDict) : M unit :=
  fun st =>
    Returns tt
      (set_class_dicts (<[l := f (class_dicts st !!! l)]> (class_dicts st)) st).

(** In-place update of the method dictionary at [l]. *)
Definition update_method (l : loc) (f : MethodDict -> MethodDict) : M unit :=
  fun st =>
    Returns tt
      (set_method_dicts (<[l := f (method_dicts st !!! l)]> (method_dicts st))
         st).

(** [self.classes[class_name]]: the dictionary bound to the name, or
    [KeyError]. *)
Definition class_of (class_name : string) : M loc :=
  fun st =>
    match classes st !! class_name with
    | Some l => Returns l st
    | None => Raises KeyError st
    end.

(** [dict[key]] for a string key: a syntax-tree node is not subscriptable. *)
Definition subscript (d : pyobj) : M loc :=
  match d with
  | DictObj l => ret l
  | NodeObj _ => raise TypeError
  end.

Definition add_called (x : string) (m : MethodDict) : MethodDict :=
  {| m_accessed_attributes := m_accessed_attributes m;
     m_called := m_called m ∪ {[x]};
     m_lloc := m_lloc m;
     m_number_of_parameters := m_number_of_parameters m |}.

Definition add_accessed_attribute (x : string) (m : MethodDict) : MethodDict :=
  {| m_accessed_attributes := m_accessed_attributes m ∪ {[x]};
     m_called := m_called m;
     m_lloc := m_lloc m;
     m_number_of_parameters := m_number_of_parameters m |}.

Definition set_lloc (n : Z) (m : MethodDict) : MethodDict :=
  {| m_accessed_attributes := m_accessed_attributes m;
     m_called := m_called m;
     m_lloc := n;
     m_number_of_parameters := m_number_of_parameters m |}.

Definition set_number_of_parameters (n : Z) (m : MethodDict) : MethodDict :=
  {| m_accessed_attributes := m_accessed_attributes m;
     m_called := m_called m;
     m_lloc := m_lloc m;
     m_number_of_parameters := n |}.

Definition add_coupled_class (x : string) (c : ClassDict) : ClassDict :=
  {| c_accessed_attributes := c_accessed_attributes c;
     c_called := c_called c;
     c_methods := c_methods c;
     c_attributes := c_attributes c;
     c_variables := c_variables c;
     c_direct_children := c_direct_children c;
     c_coupled_classes := c_coupled_classes c ∪ {[x]} |}.

Definition add_attribute (x : string * option string) (c : ClassDict)
  : ClassDict :=
  {| c_accessed_attributes := c_accessed_attributes c;
     c_called := c_called c;
     c_methods := c_methods c;
     c_attributes := c_attributes c ∪ {[x]};
     c_variables := c_variables c;
     c_direct_children := c_direct_children c;
     c_coupled_classes := c_coupled_classes c |}.

Definition add_variable (x : string) (c : ClassDict) : ClassDict :=
  {| c_accessed_attributes := c_accessed_attributes c;
     c_called := c_called c;
     c_methods := c_methods c;
     c_attributes := c_attributes c;
     c_variables := c_variables c ∪ {[x]};
     c_direct_children := c_direct_children c;
     c_coupled_classes := c_coupled_classes c |}.

Definition set_method (name : string) (l : loc) (c : ClassDict) : ClassDict :=
  {| c_accessed_attributes := c_accessed_attributes c;
     c_called := c_called c;
     c_methods := <[name := l]> (c_methods c);
     c_attributes := c_attributes c;
     c_variables := c_variables c;
     c_direct_children := c_direct_children c;
     c_coupled_classes := c_coupled_classes c |}.

Definition increment_direct_children (c : ClassDict) : ClassDict :=
  {| c_accessed_attributes := c_accessed_attributes c;
     c_called := c_called c;
     c_methods := c_methods c;
     c_attributes := c_attributes c;
     c_variables := c_variables c;
     c_direct_children := c_direct_children c + 1;
     c_coupled_classes := c_coupled_classes c |}.

(** [self.classes[class_name] = <the dictionary at l>] *)
Definition bind_class (class_name : string) (l : loc) : M unit :=
  fun st =>
    Returns tt
      {| class_dicts := class_dicts st; method_dicts := method_dicts st;
         classes := <[class_name := l]> (classes st);
         inheritances := inheritances st |}.

(** [self.inheritances[class_name] = base_class] *)
Definition bind_inheritance (class_name base_class : string) : M unit :=
  fun st =>
    Returns tt
      {| class_dicts := class_dicts st; method_dicts := method_dicts st;
         classes := classes st;
         inheritances := <[class_name := base_class]> (inheritances st) |}.

(** [name in self.classes] *)
Definition class_known (name : string) : M bool :=
  fun st => Returns (bool_decide (is_Some (classes st !! name))) st.

(** ** The extraction walk *)

(** [_extract_used_attributes_recursive] *)
Fixpoint _extract_used_attributes_recursive
    (n : expr) (dict : pyobj) (class_name : string) : M unit :=
  match n with
  | Call func args _ =>
      for_each
        (fun arg => _extract_used_attributes_recursive arg dict class_name)
        args ;;
      let called_method := as_string func in
      d <- subscript dict ;;
      update_method d (add_called called_method) ;;
      when (contains_dot called_method)
        (let callee_class := split_dot_first called_method in
         when (negb (String.eqb callee_class class_name))
           (c <- class_of class_name ;;
            update_class c (add_coupled_class callee_class)))
  | Attribute receiver attrname =>
      if negb (String.eqb (as_string receiver) "self") then
        let used_class := as_string receiver in
        c <- class_of class_name ;;
        update_class c (add_coupled_class used_class) ;;
        let attr_name := used_class +:+ "." +:+ attrname in
        d <- subscript dict ;;
        update_method d (add_accessed_attribute attr_name)
      else
        d <- subscript dict ;;
        update_method d (add_accessed_attribute attrname)
  | _ => ret tt
  end.

(** [next(target.infer(), None).pytype()] followed by the normalisation of
    the result: a failing inference raises, [Uninferable] becomes [None], a
    leading dot is dropped. *)
Definition attr_instance_of (i : inferred) : M (option string) :=
  match i with
  | InferenceFails => raise InferenceError
  | Uninferable => ret None
  | Instance EmptyString => raise IndexError
  | Instance (String c rest as pytype) =>
      if Ascii.eqb c "."%char then ret (Some rest) else ret (Some pytype)
  end.

(** [_extract_self_attributes] *)
Definition _extract_self_attributes
    (n : stmt) (dict : pyobj) (class_name : string) : M unit :=
  match n with
  | Assign targets _ =>
      for_each
        (fun tgt =>
           match tgt with
           | AssignAttr _ attr_name i =>
               attr_instance <- attr_instance_of i ;;
               c <- class_of class_name ;;
               update_class c (add_attribute (attr_name, attr_instance)) ;;
               d <- subscript dict ;;
               update_method d (add_accessed_attribute attr_name)
           | _ => ret tt
           end)
        targets
  | _ => raise AttributeError
  end.

(** The body of the loop of [_extract_methods] over [node.body]. *)
Definition extract_method_node
    (method_dict : pyobj) (class_name : string) (method_node : stmt)
  : M unit :=
  match method_node with
  | Assign _ _ => _extract_self_attributes method_node method_dict class_name
  | _ => ret tt
  end ;;
  match method_node with
  | Expr value | Assign _ value =>
      _extract_used_attributes_recursive value method_dict class_name
  | _ => ret tt
  end.

(** [_extract_methods] *)
Definition _extract_methods (n : stmt) (class_name : string) : M unit :=
  match n with
  | FunctionDef method_name args body
  | AsyncFunctionDef method_name args body =>
      let method_dict := _METHOD_INIT in
      lloc <- lift_result (count_lloc (StmtNode n)) ;;
      update_method method_dict (set_lloc lloc) ;;
      update_method method_dict
        (set_number_of_parameters (Z.of_nat (length args))) ;;
      for_each (extract_method_node (DictObj method_dict) class_name) body ;;
      c <- class_of class_name ;;
      update_class c (set_method method_name method_dict)
  | ClassDef _ _ _ => raise ValueError
  | _ => raise AttributeError
  end.

(** [_extract_inheritance] *)
Definition _extract_inheritance (base : expr) (class_name : string)
  : M unit :=
  match base with
  | Name base_class =>
      bind_inheritance class_name base_class ;;
      known <- class_known base_class ;;
      when known
        (c <- class_of base_class ;;
         update_class c increment_direct_children)
  | _ => raise AttributeError
  end.

(** [target.name]: an [AssignName] has the attribute; a [Tuple] node
    forwards the lookup to the builtin class [tuple], whose name it gives;
    an [AssignAttr] or a [Subscript] has no such attribute. *)
Definition target_name (tgt : target) : M string :=
  match tgt with
  | AssignName name => ret name
  | TupleTarget _ => ret "tuple"
  | _ => raise AttributeError
  end.

(** The body of the loop of [_extract_classes_data] over the class body. *)
Definition extract_class_node (class_name : string) (class_node : stmt)
  : M unit :=
  match class_node with
  | FunctionDef _ _ _ | AsyncFunctionDef _ _ _ =>
      _extract_methods class_node class_name
  | _ => ret tt
  end ;;
  match class_node with
  | Assign targets _ =>
      for_each
        (fun tgt =>
           attr_name <- target_name tgt ;;
           c <- class_of class_name ;;
           update_class c (add_variable attr_name))
        targets
  | _ => ret tt
  end ;;
  match class_node with
  | Expr value | Assign _ value =>
      _extract_used_attributes_recursive value (NodeObj class_node) class_name
  | _ => ret tt
  end.

(** The body of the loop of [_extract_classes_data] over [module.body]. *)
Definition extract_module_node (n : stmt) : M unit :=
  match n with
  | ClassDef class_name bases body =>
      bind_class class_name _CLASS_INIT ;;
      for_each (extract_class_node class_name) body ;;
      for_each
        (fun base =>
           match base with
           | Name _ => _extract_inheritance base class_name
           | _ => ret tt
           end)
        bases
  | _ => ret tt
  end.

(** [_extract_classes_data] *)
Definition _extract_classes_data (module : node) : M unit :=
  match module with
  | ModuleNode body => for_each extract_module_node body
  | _ => raise AttributeError
  end.

(** [_translate_attributes_to_classes]: its body is [pass]. *)
Definition _translate_attributes_to_classes : M unit := ret tt.

(** [extract_code_data], on the module that [astroid.parse(code)] returns. *)
Definition extract_code_data (module : node) : M unit :=
  _extract_classes_data module ;;
  _translate_attributes_to_classes.

(** ** Reading the registry *)

(** The state a run ends in, whether it returns or raises. *)
Definition final_state {A} (o : outcome A) : state :=
  match o with
  | Returns _ st => st
  | Raises _ st => st
  end.

(** [self.classes[class_name]] as a value. *)
Definition class_record (st : state) (class_name : string)
  : option ClassDict :=
  match classes st !! class_name with
  | Some l => class_dicts st !! l
  | None => None
  end.

(** [self.classes[class_name]['methods'][method_name]] as a value. *)
Definition method_record (st : state) (class_name method_name : string)
  : option MethodDict :=
  match class_record st class_name with
  | Some c =>
      match c_methods c !! method_name with
      | Some l => method_dicts st !! l
      | None => None
      end
  | None => None
  end.

(** ** The expressions the walk reaches

    From the expression it is started on, the walk goes into the positional
    arguments of a call, and nowhere else. *)
Inductive walked : expr -> expr -> Prop :=
| walked_here (e : expr) : walked e e
| walked_arg (func : expr) (args : list expr) (keywords : list (string * expr))
    (arg e : expr) :
    In arg args -> walked arg e -> walked (Call func args keywords) e.

(** The expression the walk is started on for a statement of a method body:
    [method_node.value] of an expression statement or an assignment. *)
Definition walk_root (method_node : stmt) : option expr :=
  match method_node with
  | Expr value | Assign _ value => Some value
  | _ => None
  end.

(** The key under which an attribute access is recorded. *)
Definition attribute_key (receiver : expr) (attrname : string) : string :=
  if String.eqb (as_string receiver) "self" then attrname
  else as_string receiver +:+ "." +:+ attrname.

(** What a method dictionary holds of an expression once it is recorded. *)
Definition recorded (m : MethodDict) (e : expr) : Prop :=
  match e with
  | Call func _ _ => as_string func ∈ m_called m
  | Attribute receiver attrname =>
      attribute_key receiver attrname ∈ m_accessed_attributes m
  | _ => True
  end.

(** Induction over expressions with the arguments of a call. *)
Section ExprInd.
Variable P : expr -> Prop.
Hypothesis P_Name : forall name, P (Name name).
Hypothesis P_Const : forall repr, P (Const repr).
Hypothesis P_Attribute : forall receiver attrname,
    P receiver -> P (Attribute receiver attrname).
Hypothesis P_Call : forall func args keywords,
    P func -> Forall P args -> P (Call func args keywords).

Fixpoint expr_args_ind (e : expr) : P e :=
  match e with
  | Name name => P_Name name
  | Const repr => P_Const repr
  | Attribute receiver attrname =>
      P_Attribute receiver attrname (expr_args_ind receiver)
  | Call func args keywords =>
      P_Call func args keywords (expr_args_ind func)
        ((fix all (l : list expr) : Forall P l :=
            match l with
            | [] => @List.Forall_nil expr P
            | a :: rest =>
                @List.Forall_cons expr P a rest (expr_args_ind a) (all rest)
            end) args)
  end.
End ExprInd.

(** ** Growth of the method dictionaries

    The two sets of a method dictionary only gain elements, and a
    dictionary of the store stays in the store. *)
Definition dict_le (m m' : MethodDict) : Prop :=
  m_called m ⊆ m_called m' /\
  m_accessed_attributes m ⊆ m_accessed_attributes m'.

Definition state_le (st st' : state) : Prop :=
  forall l,
    (is_Some (method_dicts st !! l) -> is_Some (method_dicts st' !! l)) /\
    dict_le (method_dicts st !!! l) (method_dicts st' !!! l).

(** An update of a method dictionary that removes nothing from its sets. *)
Definition growing (f : MethodDict -> MethodDict) : Prop :=
  forall m, dict_le m (f m).

(** ** Invariants of a run

    [c] keeps [I] when the state a run of [c] ends in satisfies [I], whether
    the run returns or raises. *)
Definition preserves {A} (I : state -> Prop) (c : M A) : Prop :=
  forall st, I st -> I (final_state (c st)).

(** Every class name of the registry is bound to the dictionary
    [_CLASS_INIT]. *)
Definition all_classes_at_CLASS_INIT (st : state) : Prop :=
  forall name l, classes st !! name = Some l -> l = _CLASS_INIT.

(** A method definition, plain or async. *)
Definition method_def (is_async : bool) (name : string) (args : list string)
    (body : list stmt) : stmt :=
  if is_async then AsyncFunctionDef name args body
  else FunctionDef name args body.

(** ** Inputs *)

Definition self : expr := Name "self".

(** A function whose body is one conditional with two simple statements and
    an else branch with one. *)
Definition conditional_method : stmt :=
  FunctionDef "m" ["self"]
    [If (Name "c")
        [Assign [AssignName "a"] (Const "1"); Expr (Call (Name "f") [] [])]
        [Return (Some (Name "a"))]].

(** [class UsedClass] of the test input of [code_parser.py]. *)
Definition UsedClass : stmt :=
  ClassDef "UsedClass" []
    [FunctionDef "__init__" ["self"]
       [Assign [AssignAttr self "used_attr_1" (Instance "builtins.str")]
          (Const "'I am here to be used!'");
        Assign [AssignAttr self "used_attr_2" (Instance "builtins.str")]
          (Const "'I am here to be used!'");
        Assign [AssignAttr self "used_attr_3" (Instance ".UsedClass")]
          (Call (Name "UsedClass") [] [])]].

Definition MySuperParent : stmt :=
  ClassDef "MySuperParent" []
    [Assign [AssignName "super_parent_var"] (Const "0");
     FunctionDef "__init__" ["self"] [Pass]].

Definition MyParent : stmt :=
  ClassDef "MyParent" [Name "MySuperParent"]
    [Assign [AssignName "parent_var"] (Const "0");
     FunctionDef "__init__" ["self"] [Pass]].

Definition MyClass_init : stmt :=
  FunctionDef "__init__" ["self"; "value"]
    [Assign [AssignAttr self "instance_variable" Uninferable] (Name "value");
     Assign [AssignAttr self "UsedClassAttribute" (Instance ".UsedClass")]
       (Call (Name "UsedClass") [] []);
     Assign [AssignName "usedClassVariable"] (Call (Name "UsedClass") [] [])].

Definition my_method : stmt :=
  FunctionDef "my_method" ["self"]
    [Expr (Call (Name "print") [Attribute self "instance_variable"] []);
     Expr (Call (Name "print")
             [Attribute (Attribute self "UsedClassAttribute") "used_attr"] []);
     Expr (Call (Name "print")
             [Attribute (Attribute self "UsedClassAttribute") "used_attr_2";
              Attribute (Attribute self "UsedClassAttribute") "used_attr_3"]
             [])].

(** [class MyClass(MyParent)] of the test input. *)
Definition MyClass : stmt :=
  ClassDef "MyClass" [Name "MyParent"]
    [Assign [AssignName "class_variable"] (Call (Name "UsedClass6") [] []);
     MyClass_init;
     my_method].

Definition my_function : stmt :=
  FunctionDef "my_function" []
    [Assign [AssignName "local_variable"] (Const "10");
     Expr (Call (Name "print") [Name "local_variable"] [])].

(** The module of the test run at the end of [code_parser.py]. *)
Definition test_module : node :=
  ModuleNode [UsedClass; MySuperParent; MyParent; MyClass; my_function].

(** The round-trip scenario: [UsedClass], and [MyClass] with the one method
    that reads [self.instance_variable] and an attribute of the instance
    held in [self.UsedClassAttribute]. *)
Definition round_trip_module : node :=
  ModuleNode [UsedClass; ClassDef "MyClass" [] [my_method]].

(** The inheritance chain in definition order, after the class
    [UsedClass] that [MyClass] instantiates. *)
Definition chain_module : node :=
  ModuleNode
    [UsedClass; MySuperParent; MyParent;
     ClassDef "MyClass" [Name "MyParent"] [MyClass_init; my_method]].

(** Two unrelated classes, the second with a class variable and a call. *)
Definition two_classes_module : node :=
  ModuleNode
    [ClassDef "A" []
       [FunctionDef "f" ["self"] [Pass]];
     ClassDef "B" []
       [Assign [AssignName "y"] (Const "0");
        FunctionDef "g" ["self"; "x"]
          [Expr (Call (Attribute (Name "other") "run") [] []); Pass]]].

(** The same class name defined twice. *)
Definition redefined_class_module : node :=
  ModuleNode
    [ClassDef "A" [] [FunctionDef "f" ["self"] [Pass]];
     ClassDef "A" [] [FunctionDef "g" ["self"] [Pass]]].

(** Class bodies with an expression statement that calls, an assignment to
    an attribute, an expression statement that reads an attribute. *)
Definition class_body_call : node :=
  ModuleNode [ClassDef "A" [] [Expr (Call (Name "f") [] [])]].

Definition class_body_attribute_target : node :=
  ModuleNode
    [ClassDef "A" []
       [Assign [AssignAttr (Name "a") "b" Uninferable] (Const "1")]].

Definition class_body_attribute_access : node :=
  ModuleNode [ClassDef "A" [] [Expr (Attribute (Name "b") "c")]].

(** A method that calls inside a return statement. *)
Definition return_call_module : node :=
  ModuleNode
    [ClassDef "A" []
       [FunctionDef "m" ["self"]
          [Return (Some (Call (Name "foo") [] []))]]].

(** Two method bodies that differ in the handlers and the finally block of
    a try statement nested in a loop. *)
Definition try_body_1 : list stmt :=
  [While (Name "c")
     [Try [Pass] [ExceptHandler None None [Pass; Pass]] [Break] [Pass]] []].

Definition try_body_2 : list stmt :=
  [While (Name "c")
     [Try [Pass] [ExceptHandler (Some (Name "E")) None [Continue]] [Break] []]
     []].

(** ** Notions for the properties of whole runs *)

(** [c] relates every state to the state its run ends in, whether the run
    returns or raises. *)
Definition frames {A} (R : state -> state -> Prop) (c : M A) : Prop :=
  forall st, R st (final_state (c st)).

(** The registry names and the inheritance map are the same. *)
Definition registry_same (st st' : state) : Prop :=
  classes st' = classes st /\ inheritances st' = inheritances st.

(** Nothing is taken out of a class dictionary. *)
Definition class_dict_le (c c' : ClassDict) : Prop :=
  c_accessed_attributes c ⊆ c_accessed_attributes c' /\
  c_called c ⊆ c_called c' /\
  dom (c_methods c) ⊆ dom (c_methods c') /\
  c_attributes c ⊆ c_attributes c' /\
  c_variables c ⊆ c_variables c' /\
  c_direct_children c <= c_direct_children c' /\
  c_coupled_classes c ⊆ c_coupled_classes c'.

(** Nothing is taken out of the store or of the registry. *)
Definition store_le (st st' : state) : Prop :=
  state_le st st' /\
  (forall l, class_dict_le (class_dicts st !!! l) (class_dicts st' !!! l)) /\
  dom (classes st) ⊆ dom (classes st') /\
  dom (inheritances st) ⊆ dom (inheritances st').

(** An update of a class dictionary that takes nothing out. *)
Definition class_growing (f : ClassDict -> ClassDict) : Prop :=
  forall c, class_dict_le c (f c).

(** The logical-line count and the parameter count of the method
    dictionary at [l] are the same. *)
Definition counts_same (l : loc) (st st' : state) : Prop :=
  m_lloc (method_dicts st' !!! l) = m_lloc (method_dicts st !!! l) /\
  m_number_of_parameters (method_dicts st' !!! l)
  = m_number_of_parameters (method_dicts st !!! l).

(** An update of a method dictionary that leaves the two counts. *)
Definition counts_kept (f : MethodDict -> MethodDict) : Prop :=
  forall m, m_lloc (f m) = m_lloc m /\
            m_number_of_parameters (f m) = m_number_of_parameters m.

(** The names of the classes defined directly in a module body. *)
Definition module_class_names (body : list stmt) : list string :=
  omap (fun s => match s with
                 | ClassDef name _ _ => Some name
                 | _ => None
                 end) body.

(** The last base of a class header that is a simple name. *)
Definition last_name_base (bases : list expr) : option string :=
  fold_left (fun acc base => match base with
                             | Name name => Some name
                             | _ => acc
                             end) bases None.

(** The inference on a target gives a result the normalisation accepts. *)
Definition conclusive (tgt : target) : bool :=
  match tgt with
  | AssignAttr _ _ InferenceFails => false
  | AssignAttr _ _ (Instance EmptyString) => false
  | _ => true
  end.

(** All targets of the assignments standing directly in a method body
    are conclusive. *)
Definition body_conclusive (body : list stmt) : bool :=
  forallb (fun s => match s with
                    | Assign targets _ => forallb conclusive targets
                    | _ => true
                    end) body.

(** The type recorded for an attribute: [None] when uninferable, else the
    [pytype] without a leading dot. *)
Definition recorded_type (i : inferred) : option string :=
  match i with
  | Instance (String c rest as pytype) =>
      if Ascii.eqb c "."%char then Some rest else Some pytype
  | _ => None
  end.

(** The exceptions of an inconclusive inference. *)
Definition inference_error (e : exn) : Prop :=
  e = InferenceError \/ e = IndexError.

(** The attribute [attr], with the type recorded for [i], is among the
    attributes of the class, and its name among the accessed attributes of
    the method dictionary at [l]. *)
Definition attribute_recorded (class_name : string) (l : loc) (attr : string)
    (i : inferred) (st : state) : Prop :=
  forall c, classes st !! class_name = Some c ->
            (attr, recorded_type i) ∈ c_attributes (class_dicts st !!! c) /\
            attr ∈ m_accessed_attributes (method_dicts st !!! l).

(** What [target.name] is, for the targets that have it. *)
Definition name_of_target (tgt : target) : option string :=
  match tgt with
  | AssignName name => Some name
  | TupleTarget _ => Some "tuple"
  | _ => None
  end.

(** The target has a [name]. *)
Definition has_name (tgt : target) : bool :=
  match name_of_target tgt with
  | Some _ => true
  | None => false
  end.

(** The statements the counters count: the listed simple statements and
    the compound statements. *)
Definition is_counted (s : stmt) : bool :=
  is_simple_statement s || is_compound_statement s.

(** Every key of the inheritance map is a registered class name. *)
Definition children_registered (st : state) : Prop :=
  dom (inheritances st) ⊆ dom (classes st).

(** * Properties *)

(** ** The logical-line counter *)

Lemma simple_not_compound (s : stmt) :
  is_simple_statement s = true -> is_compound_statement s = false.
Proof. destruct s; simpl; congruence. Qed.

Lemma statement_lloc_simple (s : stmt) :
  is_simple_statement s = true -> statement_lloc s = 1.
Proof. destruct s; simpl; congruence. Qed.

Lemma statement_lloc_other (s : stmt) :
  is_simple_statement s = false -> is_compound_statement s = false ->
  statement_lloc s = 0.
Proof. destruct s; simpl; congruence. Qed.

(** The loop adds the count of the block to the running total, provided the
    recursive call is right on the compound children. *)
Lemma count_children_block (count : stmt -> result Z) (children : list stmt) :
  Forall (fun c => is_compound_statement c = true ->
                   count c = Ok (statement_lloc c)) children ->
  forall lloc,
    count_children count children lloc
    = Ok (lloc + block_lloc statement_lloc children).
Proof.
  induction 1 as [|c rest Hc _ IH]; intros lloc; simpl.
  - f_equal; lia.
  - destruct (is_simple_statement c) eqn:Hs.
    + rewrite IH, (statement_lloc_simple c Hs). f_equal; lia.
    + destruct (is_compound_statement c) eqn:Hk.
      * rewrite (Hc eq_refl), IH. f_equal; lia.
      * rewrite IH, (statement_lloc_other c Hs Hk). f_equal; lia.
Qed.

Lemma count_lloc_in_compound_statement_lloc (s : stmt) :
  is_compound_statement s = true ->
  count_lloc_in_compound_statement s = Ok (statement_lloc s).
Proof.
  induction s using compound_ind; intros Hk; try congruence; simpl;
    rewrite ?(count_children_block _ body) by assumption;
    rewrite ?(count_children_block _ orelse) by assumption;
    simpl; f_equal; lia.
Qed.

Lemma count_children_lloc (children : list stmt) (lloc : Z) :
  count_children count_lloc_in_compound_statement children lloc
  = Ok (lloc + block_lloc statement_lloc children).
Proof.
  apply count_children_block, Forall_forall.
  intros c _. apply count_lloc_in_compound_statement_lloc.
Qed.

Lemma statement_lloc_erase_handlers (s : stmt) :
  statement_lloc (erase_handlers s) = statement_lloc s.
Proof.
  assert (Hblock : forall l,
             Forall (fun c => statement_lloc (erase_handlers c)
                              = statement_lloc c) l ->
             block_lloc statement_lloc (map erase_handlers l)
             = block_lloc statement_lloc l).
  { induction 1 as [|c rest Hc _ IH]; simpl; [reflexivity|].
    rewrite Hc, IH. reflexivity. }
  induction s using compound_ind; simpl;
    rewrite ?(Hblock body), ?(Hblock orelse) by assumption; try reflexivity.
  destruct s; simpl in *; congruence.
Qed.

Lemma block_lloc_erase_handlers (block : list stmt) :
  block_lloc statement_lloc (map erase_handlers block)
  = block_lloc statement_lloc block.
Proof.
  induction block as [|c rest IH]; simpl; [reflexivity|].
  rewrite statement_lloc_erase_handlers, IH. reflexivity.
Qed.

(** A try statement counts its header, its primary body and its else body. *)
Lemma count_lloc_try (body : list stmt) (handlers : list except_handler)
    (orelse finalbody : list stmt) :
  count_lloc_in_compound_statement (Try body handlers orelse finalbody)
  = Ok (1 + block_lloc statement_lloc body + block_lloc statement_lloc orelse).
Proof. apply count_lloc_in_compound_statement_lloc. reflexivity. Qed.

(** C7. On every function definition, plain or async, [count_lloc] returns
    the count of the body by the stated rule: 1 per listed simple statement,
    and for a compound statement 1 for its header plus the count of its
    primary body plus the count of its else body. A function whose body is
    one conditional with two simple statements and an else branch with one
    simple statement has 4 logical lines. *)
Theorem count_lloc_follows_rule :
  (forall name args body,
      count_lloc (StmtNode (FunctionDef name args body))
      = Ok (block_lloc statement_lloc body)) /\
  (forall name args body,
      count_lloc (StmtNode (AsyncFunctionDef name args body))
      = Ok (block_lloc statement_lloc body)) /\
  count_lloc (StmtNode conditional_method) = Ok 4.
Proof.
  repeat split; intros; simpl; rewrite ?count_children_lloc; reflexivity.
Qed.

(** C8. [count_lloc] returns a count exactly on function and method
    definitions; on every other node it raises, and the error is
    [ValueError]. *)
Theorem count_lloc_fails_fast (n : node) :
  match count_lloc n with
  | Ok _ => is_function_def n = true
  | Raised e => is_function_def n = false /\ e = ValueError
  end.
Proof.
  destruct n as [s| | | |]; simpl; auto.
  destruct s; simpl; auto; rewrite count_children_lloc; reflexivity.
Qed.

Lemma block_lloc_app (block1 block2 : list stmt) :
  block_lloc statement_lloc (block1 ++ block2)
  = block_lloc statement_lloc block1 + block_lloc statement_lloc block2.
Proof.
  induction block1 as [|s rest IH]; simpl; [reflexivity|]. rewrite IH. lia.
Qed.

(** C10. In a method, plain or async, a try statement standing in the body
    counts 1 for its header, plus the count of its primary body, plus the
    count of its else body, whatever its except handlers and its finally
    block hold. At any depth, two method bodies that are the same once the
    except handlers and the finally blocks of their try statements are
    dropped have the same logical-line count, and this count is the one of
    the rule. *)
Theorem count_lloc_ignores_handlers :
  (forall is_async name args before body handlers orelse finalbody after,
      count_lloc
        (StmtNode
           (method_def is_async name args
              (before ++ Try body handlers orelse finalbody :: after)))
      = Ok (block_lloc statement_lloc before
            + (1 + block_lloc statement_lloc body
                 + block_lloc statement_lloc orelse)
            + block_lloc statement_lloc after)) /\
  (forall is_async name args body1 body2,
      map erase_handlers body1 = map erase_handlers body2 ->
      count_lloc (StmtNode (method_def is_async name args body1))
      = Ok (block_lloc statement_lloc body1) /\
      count_lloc (StmtNode (method_def is_async name args body1))
      = count_lloc (StmtNode (method_def is_async name args body2))).
Proof.
  split.
  - intros is_async name args before body handlers orelse finalbody after.
    destruct is_async; simpl; rewrite count_children_lloc, block_lloc_app;
      simpl; f_equal; lia.
  - intros is_async name args body1 body2 Heq.
    destruct is_async; simpl; rewrite !count_children_lloc;
      (split; [reflexivity|]);
      rewrite <- (block_lloc_erase_handlers body1), Heq;
      rewrite block_lloc_erase_handlers; reflexivity.
Qed.

Lemma count_lloc_ignores_handlers_witness :
  map erase_handlers try_body_1 = map erase_handlers try_body_2 /\
  count_lloc (StmtNode (FunctionDef "m" ["self"] try_body_1)) = Ok 4 /\
  count_lloc (StmtNode (FunctionDef "m" ["self"] try_body_1))
  = count_lloc (StmtNode (FunctionDef "m" ["self"] try_body_2)).
Proof.
  split; [reflexivity|].
  apply (proj2 count_lloc_ignores_handlers false "m" ["self"]
           try_body_1 try_body_2).
  reflexivity.
Defined.

(** ** Runs of the extractor on concrete modules *)

(** C2. A class body with an expression statement that calls, or with an
    assignment to an attribute, makes the extraction raise; so does the
    module of the parser's own test run. *)
Theorem extraction_raises_in_class_bodies :
  (exists st, extract_code_data class_body_call init_state
              = Raises TypeError st) /\
  (exists st, extract_code_data class_body_attribute_target init_state
              = Raises AttributeError st) /\
  (exists st, extract_code_data test_module init_state
              = Raises TypeError st).
Proof.
  repeat split; eexists; vm_compute; reflexivity.
Qed.

Ltac evaluate :=
  repeat match goal with
         | |- _ /\ _ => split
         | |- exists _, _ => eexists
         end;
  vm_compute; first [reflexivity | discriminate | lia].

(** C1. With two classes in a module, both names are bound to the one
    dictionary [_CLASS_INIT] and both methods to the one dictionary
    [_METHOD_INIT]: what the extraction of [B] and of its method [g] writes
    (the variable [y], the coupling to [other], the method [g], the call,
    two parameters, two logical lines) is read back from [A] and from its
    method [f]. *)
Theorem class_and_method_records_are_shared :
  exists st c m,
    extract_code_data two_classes_module init_state = Returns tt st /\
    classes st !! "A" = Some _CLASS_INIT /\
    classes st !! "B" = Some _CLASS_INIT /\
    class_record st "A" = Some c /\
    class_record st "B" = Some c /\
    "y" ∈ c_variables c /\
    "other" ∈ c_coupled_classes c /\
    c_methods c !! "f" = Some _METHOD_INIT /\
    c_methods c !! "g" = Some _METHOD_INIT /\
    method_record st "A" "f" = Some m /\
    method_record st "B" "g" = Some m /\
    "other.run" ∈ m_called m /\
    m_number_of_parameters m = 2 /\
    m_lloc m = 2.
Proof. evaluate. Qed.

(** C4. On the inheritance chain the inheritance map is as expected, and
    the counter of direct children reads 2 for [MySuperParent], for
    [MyParent] and for [MyClass]: the two increments land in the one shared
    dictionary. *)
Theorem chain_direct_children_are_shared :
  exists st c,
    extract_code_data chain_module init_state = Returns tt st /\
    inheritances st !! "MyParent" = Some "MySuperParent" /\
    inheritances st !! "MyClass" = Some "MyParent" /\
    inheritances st !! "MySuperParent" = None /\
    class_record st "MySuperParent" = Some c /\
    class_record st "MyParent" = Some c /\
    class_record st "MyClass" = Some c /\
    c_direct_children c = 2.
Proof. evaluate. Qed.

(** C5. When a class name is defined a second time, the name stays bound
    to the same dictionary, and the method [f] of the first definition is
    still among the methods after the second. *)
Theorem redefinition_keeps_old_methods :
  exists st c l,
    extract_code_data redefined_class_module init_state = Returns tt st /\
    dom (classes st) = {["A"]} /\
    class_record st "A" = Some c /\
    c_methods c !! "f" = Some l /\
    dom (c_methods c) = {["f"; "g"]}.
Proof. evaluate. Qed.

(** C9. An attribute access in an expression statement of a class body
    with a receiver other than [self]: the receiver text is added to the
    coupled classes, then the extraction raises [TypeError], and the
    qualified key is recorded nowhere. *)
Theorem class_body_attribute_access_raises :
  exists st c,
    extract_code_data class_body_attribute_access init_state
    = Raises TypeError st /\
    class_record st "A" = Some c /\
    "b" ∈ c_coupled_classes c /\
    c_accessed_attributes c = ∅ /\
    m_accessed_attributes (method_dicts st !!! _METHOD_INIT) = ∅.
Proof. evaluate. Qed.

(** C3, as stated, fails: on the round-trip module the coupled classes of
    [MyClass] do not hold [UsedClass], and the accessed attributes of
    [my_method] do not hold [UsedClassAttribute.used_attr]. *)
Lemma round_trip_as_stated_fails :
  ~ (exists st c m,
        extract_code_data round_trip_module init_state = Returns tt st /\
        class_record st "MyClass" = Some c /\
        method_record st "MyClass" "my_method" = Some m /\
        "UsedClass" ∈ c_coupled_classes c /\
        "UsedClassAttribute.used_attr" ∈ m_accessed_attributes m).
Proof.
  intros (st & c & m & Hrun & Hc & _ & Hin & _).
  vm_compute in Hrun. injection Hrun as <-.
  vm_compute in Hc. injection Hc as <-.
  vm_compute in Hin. discriminate.
Qed.

(** C3, amended. On the round-trip module the coupled classes of [MyClass]
    hold the receiver text [self.UsedClassAttribute], so there is at least
    one, and the accessed attributes of [my_method] hold the key
    [self.UsedClassAttribute.used_attr]. *)
Theorem round_trip_records_receiver_text :
  exists st c m,
    extract_code_data round_trip_module init_state = Returns tt st /\
    class_record st "MyClass" = Some c /\
    method_record st "MyClass" "my_method" = Some m /\
    "self.UsedClassAttribute" ∈ c_coupled_classes c /\
    (1 <= size (c_coupled_classes c))%nat /\
    "instance_variable" ∈ m_accessed_attributes m /\
    "self.UsedClassAttribute.used_attr" ∈ m_accessed_attributes m.
Proof. evaluate. Qed.


(** ** Reasoning about runs that return *)

Lemma bind_returns {A B} (c : M A) (k : A -> M B) st b st' :
  bind c k st = Returns b st' ->
  exists a st1, c st = Returns a st1 /\ k a st1 = Returns b st'.
Proof.
  unfold bind. destruct (c st) as [a st1|e st1]; [eauto | discriminate].
Qed.

Lemma ret_returns {A} (a b : A) st st' :
  ret a st = Returns b st' -> a = b /\ st = st'.
Proof. unfold ret. intros [= -> ->]. auto. Qed.

Lemma when_returns (b : bool) (c : M unit) st st' :
  when b c st = Returns tt st' ->
  (b = true /\ c st = Returns tt st') \/ (b = false /\ st = st').
Proof.
  destruct b; simpl; [auto|]. intros [_ ->]%ret_returns. auto.
Qed.

Lemma subscript_returns (d : pyobj) l st st' :
  subscript d st = Returns l st' -> d = DictObj l /\ st = st'.
Proof.
  destruct d; simpl; [|discriminate]. intros [-> ->]%ret_returns. auto.
Qed.

Lemma class_of_returns (class_name : string) l st st' :
  class_of class_name st = Returns l st' ->
  classes st !! class_name = Some l /\ st = st'.
Proof.
  unfold class_of. destruct (classes st !! class_name); [|discriminate].
  intros [= -> ->]. auto.
Qed.

(** A property that every iteration keeps is kept by the loop. *)
Lemma for_each_keeps {A} (f : A -> M unit) (I : state -> Prop) (xs : list A) :
  (forall x st st', In x xs -> I st -> f x st = Returns tt st' -> I st') ->
  forall st st', I st -> for_each f xs st = Returns tt st' -> I st'.
Proof.
  induction xs as [|y rest IH]; intros Hkeep st st' Hst Hrun; simpl in Hrun.
  - apply ret_returns in Hrun as [_ <-]. exact Hst.
  - apply bind_returns in Hrun as ([] & st1 & Hy & Hrest).
    eapply IH; [| |exact Hrest].
    + intros; eapply Hkeep; [right| |]; eassumption.
    + eapply Hkeep; [left; reflexivity| |]; eassumption.
Qed.

(** What every iteration establishes for its element, and no iteration
    undoes, holds for all elements after the loop. *)
Lemma for_each_establishes {A} (f : A -> M unit) (Q : A -> state -> Prop)
    (xs : list A) :
  (forall x st st', In x xs -> f x st = Returns tt st' -> Q x st') ->
  (forall x y st st', In y xs -> Q x st -> f y st = Returns tt st' -> Q x st') ->
  forall st st', for_each f xs st = Returns tt st' ->
                 forall x, In x xs -> Q x st'.
Proof.
  induction xs as [|y rest IH]; intros Hest Hstable st st' Hrun x Hx.
  - destruct Hx.
  - simpl in Hrun. apply bind_returns in Hrun as ([] & st1 & Hy & Hrest).
    destruct Hx as [<-|Hx].
    + eapply (for_each_keeps f (Q y) rest); [| |exact Hrest].
      * intros; eapply Hstable; [right| |]; eassumption.
      * eapply Hest; [left; reflexivity|exact Hy].
    + eapply IH; [| |exact Hrest|exact Hx].
      * intros; eapply Hest; [right|]; eassumption.
      * intros; eapply Hstable; [right| |]; eassumption.
Qed.

(** ** The method dictionaries only grow *)

Lemma dict_le_refl (m : MethodDict) : dict_le m m.
Proof. split; reflexivity. Qed.

Lemma dict_le_trans (m1 m2 m3 : MethodDict) :
  dict_le m1 m2 -> dict_le m2 m3 -> dict_le m1 m3.
Proof. intros [? ?] [? ?]. split; etrans; eassumption. Qed.

Lemma state_le_refl (st : state) : state_le st st.
Proof. intros l. split; [auto | apply dict_le_refl]. Qed.

Lemma state_le_trans (st1 st2 st3 : state) :
  state_le st1 st2 -> state_le st2 st3 -> state_le st1 st3.
Proof.
  intros H12 H23 l. destruct (H12 l) as [? ?], (H23 l) as [? ?].
  split; [auto | eapply dict_le_trans; eassumption].
Qed.

Lemma recorded_mono (m m' : MethodDict) (e : expr) :
  dict_le m m' -> recorded m e -> recorded m' e.
Proof. intros [Hc Ha]. destruct e; simpl; auto. Qed.

Lemma growing_add_called x : growing (add_called x).
Proof. intros m. split; simpl; set_solver. Qed.

Lemma growing_add_accessed_attribute x : growing (add_accessed_attribute x).
Proof. intros m. split; simpl; set_solver. Qed.

Lemma growing_set_lloc n : growing (set_lloc n).
Proof. intros m. split; simpl; reflexivity. Qed.

Lemma growing_set_number_of_parameters n :
  growing (set_number_of_parameters n).
Proof. intros m. split; simpl; reflexivity. Qed.

Create HintDb parser.
#[local] Hint Resolve growing_add_called growing_add_accessed_attribute
  growing_set_lloc growing_set_number_of_parameters : parser.

Lemma update_method_le l f st a st' :
  growing f -> update_method l f st = Returns a st' -> state_le st st'.
Proof.
  intros Hf [= _ <-] l'. simpl.
  destruct (decide (l = l')) as [->|Hne].
  - rewrite lookup_insert_eq, lookup_total_insert_eq. split; [eauto | apply Hf].
  - rewrite lookup_insert_ne, lookup_total_insert_ne by done.
    split; [auto | apply dict_le_refl].
Qed.

Lemma update_class_le l f st a st' :
  update_class l f st = Returns a st' -> state_le st st'.
Proof.
  intros [= _ <-] l'. simpl. split; [auto | apply dict_le_refl].
Qed.

Lemma update_method_lookup l f st a st' :
  update_method l f st = Returns a st' ->
  method_dicts st' !!! l = f (method_dicts st !!! l).
Proof. intros [= _ <-]. simpl. apply lookup_total_insert_eq. Qed.

Ltac run_inv :=
  repeat match goal with
         | H : bind _ _ _ = Returns _ _ |- _ =>
             let a := fresh "a" in
             let s := fresh "st" in
             let H1 := fresh "Hrun" in
             apply bind_returns in H as (a & s & H1 & H);
             try (match type of a with unit => destruct a end)
         | H : ret _ _ = Returns _ _ |- _ =>
             apply ret_returns in H as [? ?]; subst
         | H : subscript _ _ = Returns _ _ |- _ =>
             apply subscript_returns in H as [? ?]; subst
         | H : class_of _ _ = Returns _ _ |- _ =>
             apply class_of_returns in H as [? ?]; subst
         | H : when _ _ _ = Returns _ _ |- _ =>
             apply when_returns in H as [[? H]|[? ?]]; subst
         | H : raise _ _ = Returns _ _ |- _ => discriminate H
         | H : Raises _ _ = Returns _ _ |- _ => discriminate H
         end.

Ltac le_chain :=
  repeat match goal with
         | |- state_le ?s ?s => apply state_le_refl
         | H : update_method _ _ ?s = Returns _ _ |- state_le ?s _ =>
             eapply state_le_trans;
             [eapply update_method_le; [|exact H]; auto with parser|];
             clear H
         | H : update_class _ _ ?s = Returns _ _ |- state_le ?s _ =>
             eapply state_le_trans; [eapply update_class_le; exact H|];
             clear H
         end.

(** The walk only adds to the method dictionaries. *)
Lemma walk_le (e : expr) :
  forall dict class_name st st',
    _extract_used_attributes_recursive e dict class_name st = Returns tt st' ->
    state_le st st'.
Proof.
  induction e as [name|repr|receiver attrname _|func args keywords _ IHargs]
    using expr_args_ind; intros dict class_name st st' Hrun; simpl in Hrun.
  - run_inv. apply state_le_refl.
  - run_inv. apply state_le_refl.
  - destruct (negb _); run_inv; le_chain.
  - apply bind_returns in Hrun as ([] & st1 & Hargs & Hrun).
    assert (Hle : state_le st st1).
    { eapply (for_each_keeps _ (state_le st) args);
        [|apply state_le_refl|exact Hargs].
      intros x s s' Hx Hs Hxrun. eapply state_le_trans; [exact Hs|].
      rewrite Forall_forall in IHargs. eapply IHargs; [|exact Hxrun].
      apply list_elem_of_In, Hx. }
    run_inv; (eapply state_le_trans; [exact Hle|]); le_chain.
Qed.

Lemma walked_leaf (e e' : expr) :
  match e with Call _ _ _ => False | _ => True end -> walked e e' -> e' = e.
Proof. intros He Hw. destruct Hw; [reflexivity | destruct He]. Qed.

(** The part of the call branch after the loop over the arguments. *)
Lemma call_tail_records (func : expr) (class_name : string) (l : loc) st st' :
  (d <- subscript (DictObj l) ;;
   update_method d (add_called (as_string func)) ;;
   when (contains_dot (as_string func))
     (when (negb (String.eqb (split_dot_first (as_string func)) class_name))
        (c <- class_of class_name ;;
         update_class c (add_coupled_class (split_dot_first (as_string func))))))
    st = Returns tt st' ->
  state_le st st' /\ as_string func ∈ m_called (method_dicts st' !!! l).
Proof.
  intros Hrun.
  apply bind_returns in Hrun as (d & st0 & Hd & Hrun).
  apply subscript_returns in Hd as [[= <-] <-].
  apply bind_returns in Hrun as ([] & st1 & Hupd & Hrun).
  pose proof (update_method_lookup _ _ _ _ _ Hupd) as Hlk.
  assert (Hin : as_string func ∈ m_called (method_dicts st1 !!! l)).
  { rewrite Hlk. simpl. set_solver. }
  assert (Hle : state_le st1 st') by (run_inv; le_chain).
  split.
  - eapply state_le_trans; [|exact Hle].
    eapply update_method_le; [|exact Hupd]. auto with parser.
  - destruct (Hle l) as [_ [Hc _]]. apply Hc, Hin.
Qed.

(** Everything the walk reaches from [e] is in the method dictionary when
    the walk returns. *)
Lemma walk_records (e : expr) :
  forall l class_name st st',
    _extract_used_attributes_recursive e (DictObj l) class_name st
    = Returns tt st' ->
    forall e', walked e e' -> recorded (method_dicts st' !!! l) e'.
Proof.
  induction e as [name|repr|receiver attrname _|func args keywords _ IHargs]
    using expr_args_ind; intros l class_name st st' Hrun e' Hw.
  - apply walked_leaf in Hw as ->; exact I.
  - apply walked_leaf in Hw as ->; exact I.
  - apply walked_leaf in Hw as ->; [|exact I].
    simpl in *. unfold attribute_key.
    destruct (String.eqb (as_string receiver) "self"); simpl in Hrun; run_inv;
      match goal with
      | H : update_method _ _ _ = Returns _ _ |- _ =>
          rewrite (update_method_lookup _ _ _ _ _ H)
      end; simpl; set_solver.
  - simpl in Hrun.
    apply bind_returns in Hrun as ([] & st1 & Hargs & Hrun).
    apply call_tail_records in Hrun as [Hle Hin].
    inversion Hw as [|? ? ? arg ? Harg Hw']; subst.
    + exact Hin.
    + eapply recorded_mono; [exact (proj2 (Hle l))|].
      clear Hw. revert e' Hw'.
      eapply (for_each_establishes _
                (fun a s => forall e', walked a e' ->
                                       recorded (method_dicts s !!! l) e')
                args); [| |exact Hargs|exact Harg].
      * intros x s s' Hx Hxrun. rewrite Forall_forall in IHargs.
        eapply IHargs; [apply list_elem_of_In, Hx|exact Hxrun].
      * intros x y s s' Hy Hrec Hyrun e'' Hw''.
        eapply recorded_mono; [|apply Hrec, Hw''].
        exact (proj2 (walk_le _ _ _ _ _ Hyrun l)).
Qed.

Lemma attr_instance_of_returns (i : inferred) a st st' :
  attr_instance_of i st = Returns a st' -> st = st'.
Proof.
  destruct i as [| |[|c rest]]; simpl; try discriminate.
  - intros [_ ->]%ret_returns. reflexivity.
  - destruct (Ascii.eqb c "."%char); intros [_ ->]%ret_returns; reflexivity.
Qed.

Lemma extract_self_attributes_le (n : stmt) dict class_name st st' :
  _extract_self_attributes n dict class_name st = Returns tt st' ->
  state_le st st'.
Proof.
  destruct n; simpl; try discriminate. intros Hrun.
  eapply (for_each_keeps _ (state_le st) targets);
    [|apply state_le_refl|exact Hrun].
  intros tgt s s' _ Hs Htgt. eapply state_le_trans; [exact Hs|].
  destruct tgt; run_inv; try apply state_le_refl.
  match goal with
  | H : attr_instance_of _ _ = Returns _ _ |- _ =>
      apply attr_instance_of_returns in H as <-
  end.
  le_chain.
Qed.

Lemma extract_method_node_le dict class_name (s : stmt) st st' :
  extract_method_node dict class_name s st = Returns tt st' ->
  state_le st st'.
Proof.
  unfold extract_method_node. intros Hrun.
  apply bind_returns in Hrun as ([] & st1 & Hself & Hwalk).
  apply (state_le_trans st st1 st').
  - destruct s; run_inv; try apply state_le_refl.
    eapply extract_self_attributes_le; eassumption.
  - destruct s; run_inv; try apply state_le_refl;
      eapply walk_le; eassumption.
Qed.

Lemma extract_method_node_records l class_name (s : stmt) st st' :
  extract_method_node (DictObj l) class_name s st = Returns tt st' ->
  forall v e, walk_root s = Some v -> walked v e ->
              recorded (method_dicts st' !!! l) e.
Proof.
  unfold extract_method_node. intros Hrun v e Hroot Hw.
  apply bind_returns in Hrun as ([] & st1 & _ & Hwalk).
  destruct s; simpl in Hroot; try discriminate;
    injection Hroot as <-; eapply walk_records; eassumption.
Qed.

Lemma count_lloc_method_def is_async name args body :
  count_lloc (StmtNode (method_def is_async name args body))
  = Ok (block_lloc statement_lloc body).
Proof. destruct is_async; simpl; rewrite count_children_lloc; reflexivity. Qed.



(** ** Every class name is bound to the one dictionary *)

Section Preserves.
Variable I : state -> Prop.

Lemma preserves_ret {A} (a : A) : preserves I (ret a).
Proof. intros st Hst. exact Hst. Qed.

Lemma preserves_raise {A} (e : exn) : preserves I (@raise A e).
Proof. intros st Hst. exact Hst. Qed.

Lemma preserves_bind {A B} (c : M A) (k : A -> M B) :
  preserves I c -> (forall a, preserves I (k a)) -> preserves I (bind c k).
Proof.
  intros Hc Hk st Hst. unfold bind. specialize (Hc st Hst).
  destruct (c st) as [a st1|e st1]; simpl in *; [apply Hk|]; exact Hc.
Qed.

Lemma preserves_when (b : bool) (c : M unit) :
  preserves I c -> preserves I (when b c).
Proof. destruct b; simpl; [auto | intros _; apply preserves_ret]. Qed.

Lemma preserves_lift_result {A} (r : result A) : preserves I (lift_result r).
Proof. destruct r; [apply preserves_ret | apply preserves_raise]. Qed.

Lemma preserves_for_each {A} (f : A -> M unit) (xs : list A) :
  (forall x, preserves I (f x)) -> preserves I (for_each f xs).
Proof.
  intros Hf. induction xs as [|x rest IH]; simpl.
  - apply preserves_ret.
  - apply preserves_bind; [apply Hf | intros _; exact IH].
Qed.

(** A step that leaves [classes] as it is keeps what is said of it. *)
Hypothesis I_classes : forall st st', classes st' = classes st -> I st -> I st'.

Lemma preserves_same_classes {A} (c : M A) :
  (forall st, classes (final_state (c st)) = classes st) -> preserves I c.
Proof. intros Hc st Hst. eapply I_classes; [apply Hc | exact Hst]. Qed.
End Preserves.

Lemma all_classes_same (st st' : state) :
  classes st' = classes st ->
  all_classes_at_CLASS_INIT st -> all_classes_at_CLASS_INIT st'.
Proof. intros Heq Hst name l. rewrite Heq. apply Hst. Qed.

Ltac same_classes :=
  apply (preserves_same_classes _ all_classes_same);
  let st := fresh "st" in
  intros st; cbv [update_class update_method class_of subscript class_known
                  bind_inheritance attr_instance_of target_name ret raise];
  repeat match goal with
         | |- context [match ?x with _ => _ end] => destruct x
         end;
  reflexivity.

Lemma update_class_preserves l f :
  preserves all_classes_at_CLASS_INIT (update_class l f).
Proof. same_classes. Qed.

Lemma update_method_preserves l f :
  preserves all_classes_at_CLASS_INIT (update_method l f).
Proof. same_classes. Qed.

Lemma class_of_preserves class_name :
  preserves all_classes_at_CLASS_INIT (class_of class_name).
Proof. same_classes. Qed.

Lemma subscript_preserves dict :
  preserves all_classes_at_CLASS_INIT (subscript dict).
Proof. same_classes. Qed.

Lemma class_known_preserves name :
  preserves all_classes_at_CLASS_INIT (class_known name).
Proof. same_classes. Qed.

Lemma bind_inheritance_preserves class_name base_class :
  preserves all_classes_at_CLASS_INIT (bind_inheritance class_name base_class).
Proof. same_classes. Qed.

Lemma attr_instance_of_preserves i :
  preserves all_classes_at_CLASS_INIT (attr_instance_of i).
Proof. same_classes. Qed.

Lemma target_name_preserves tgt :
  preserves all_classes_at_CLASS_INIT (target_name tgt).
Proof. same_classes. Qed.

(** The one step that writes [classes] binds the name to [_CLASS_INIT]. *)
Lemma bind_class_preserves class_name :
  preserves all_classes_at_CLASS_INIT (bind_class class_name _CLASS_INIT).
Proof.
  intros st Hst name l. simpl.
  destruct (decide (class_name = name)) as [->|Hne].
  - rewrite lookup_insert_eq. congruence.
  - rewrite lookup_insert_ne by done. apply Hst.
Qed.

Ltac preserve :=
  repeat first
    [ simple apply preserves_ret
    | simple apply preserves_raise
    | simple apply preserves_lift_result
    | simple apply update_class_preserves
    | simple apply update_method_preserves
    | simple apply class_of_preserves
    | simple apply subscript_preserves
    | simple apply class_known_preserves
    | simple apply bind_inheritance_preserves
    | simple apply attr_instance_of_preserves
    | simple apply target_name_preserves
    | simple apply bind_class_preserves
    | simple apply preserves_bind; [|intros ?]
    | simple apply preserves_when
    | simple apply preserves_for_each; intros ? ].

Lemma walk_preserves (e : expr) dict class_name :
  preserves all_classes_at_CLASS_INIT
    (_extract_used_attributes_recursive e dict class_name).
Proof.
  induction e as [name|repr|receiver attrname _|func args keywords _ IHargs]
    using expr_args_ind; simpl.
  - preserve.
  - preserve.
  - destruct (negb _); preserve.
  - apply preserves_bind.
    + clear -IHargs. induction IHargs as [|a rest Ha _ IH]; simpl.
      * preserve.
      * apply preserves_bind; [apply Ha | intros _; exact IH].
    + intros _. preserve.
Qed.

Lemma extract_self_attributes_preserves (n : stmt) dict class_name :
  preserves all_classes_at_CLASS_INIT
    (_extract_self_attributes n dict class_name).
Proof.
  destruct n; simpl; preserve.
  match goal with |- preserves _ (match ?t with _ => _ end) => destruct t end;
    preserve.
Qed.

Lemma extract_method_node_preserves dict class_name (s : stmt) :
  preserves all_classes_at_CLASS_INIT (extract_method_node dict class_name s).
Proof.
  unfold extract_method_node. apply preserves_bind; [|intros _].
  - destruct s; preserve. apply extract_self_attributes_preserves.
  - destruct s; preserve; apply walk_preserves.
Qed.

Lemma extract_methods_preserves (n : stmt) class_name :
  preserves all_classes_at_CLASS_INIT (_extract_methods n class_name).
Proof.
  destruct n; simpl; preserve; apply extract_method_node_preserves.
Qed.

Lemma extract_inheritance_preserves (base : expr) class_name :
  preserves all_classes_at_CLASS_INIT (_extract_inheritance base class_name).
Proof. destruct base; simpl; preserve. Qed.

Lemma extract_class_node_preserves class_name (s : stmt) :
  preserves all_classes_at_CLASS_INIT (extract_class_node class_name s).
Proof.
  unfold extract_class_node.
  apply preserves_bind; [|intros _; apply preserves_bind; [|intros _]].
  - destruct s; preserve; apply extract_methods_preserves.
  - destruct s; preserve.
  - destruct s; preserve; apply walk_preserves.
Qed.

Lemma extract_module_node_preserves (s : stmt) :
  preserves all_classes_at_CLASS_INIT (extract_module_node s).
Proof.
  destruct s; simpl; preserve.
  - apply extract_class_node_preserves.
  - match goal with |- preserves _ (match ?t with _ => _ end) => destruct t end;
      preserve; apply extract_inheritance_preserves.
Qed.

(** X1. Whatever the module, and whether the extraction returns or raises, all
    class names of the registry end up bound to the dictionary
    [_CLASS_INIT]: no two classes have records of their own. *)
Lemma extract_code_data_binds_CLASS_INIT (module : node) (name : string)
    (l : loc) :
  classes (final_state (extract_code_data module init_state)) !! name = Some l ->
  l = _CLASS_INIT.
Proof.
  assert (H : preserves all_classes_at_CLASS_INIT (extract_code_data module)).
  { unfold extract_code_data, _translate_attributes_to_classes,
      _extract_classes_data.
    destruct module; preserve. apply extract_module_node_preserves. }
  apply (H init_state). intros n l' Hl. vm_compute in Hl. discriminate.
Qed.

(** ** The attribute rule on a method dictionary *)

(** X2. When the walk is given a method dictionary, an attribute access is
    recorded under its key, and the receiver text is added to the coupled
    classes of the class exactly when it is not [self]. *)
Lemma attribute_rule_on_method_dictionary
    (receiver : expr) (attrname : string) (l c : loc) (class_name : string)
    (st : state) :
  classes st !! class_name = Some c ->
  exists st',
    _extract_used_attributes_recursive (Attribute receiver attrname)
      (DictObj l) class_name st = Returns tt st' /\
    m_accessed_attributes (method_dicts st' !!! l)
    = m_accessed_attributes (method_dicts st !!! l)
      ∪ {[attribute_key receiver attrname]} /\
    c_coupled_classes (class_dicts st' !!! c)
    = if String.eqb (as_string receiver) "self"
      then c_coupled_classes (class_dicts st !!! c)
      else c_coupled_classes (class_dicts st !!! c) ∪ {[as_string receiver]}.
Proof.
  intros Hc. simpl. unfold attribute_key.
  destruct (String.eqb (as_string receiver) "self"); simpl;
    unfold bind, class_of, subscript, ret, update_class, update_method;
    rewrite ?Hc; simpl; eexists; (split; [reflexivity|]); simpl;
    rewrite ?lookup_total_insert_eq; auto.
Qed.

(** * Further properties of the extractor *)

(** ** Runs that return, runs that raise *)

Lemma bind_after_return {A B} (c : M A) (k : A -> M B) st a st1 :
  c st = Returns a st1 -> bind c k st = k a st1.
Proof. unfold bind. intros ->. reflexivity. Qed.

Lemma bind_after_raise {A B} (c : M A) (k : A -> M B) st e st1 :
  c st = Raises e st1 -> bind c k st = Raises e st1.
Proof. unfold bind. intros ->. reflexivity. Qed.

(** A loop whose iterations return from every state that satisfies [I],
    into such a state, returns. *)
Lemma for_each_returns {A} (f : A -> M unit) (I : state -> Prop)
    (xs : list A) :
  (forall x st, In x xs -> I st -> exists st', f x st = Returns tt st' /\ I st') ->
  forall st, I st -> exists st', for_each f xs st = Returns tt st' /\ I st'.
Proof.
  induction xs as [|x rest IH]; intros Hf st Hst; simpl.
  - exists st. split; [reflexivity | exact Hst].
  - destruct (Hf x st (or_introl eq_refl) Hst) as (st1 & Hx & Hst1).
    rewrite (bind_after_return _ _ _ _ _ Hx).
    apply IH; [|exact Hst1]. intros y s Hy. apply Hf. right; exact Hy.
Qed.

Lemma registry_same_refl st : registry_same st st.
Proof. split; reflexivity. Qed.

Lemma registry_same_trans st1 st2 st3 :
  registry_same st1 st2 -> registry_same st2 st3 -> registry_same st1 st3.
Proof. intros [? ?] [? ?]. split; congruence. Qed.

Lemma walk_returns (e : expr) (l c : loc)
    (class_name : string) (st : state) :
  classes st !! class_name = Some c ->
  exists st',
    _extract_used_attributes_recursive e (DictObj l) class_name st
    = Returns tt st' /\
    registry_same st st'.
Proof.
  revert st.
  induction e as [name|repr|receiver attrname _|func args keywords _ IHargs]
    using expr_args_ind; intros st Hc; simpl.
  - exists st. split; [reflexivity | apply registry_same_refl].
  - exists st. split; [reflexivity | apply registry_same_refl].
  - destruct (negb _);
      unfold bind, class_of, subscript, ret, update_class, update_method;
      rewrite ?Hc; simpl; eexists; (split; [reflexivity|]);
      split; reflexivity.
  - destruct (for_each_returns
                (fun arg => _extract_used_attributes_recursive arg (DictObj l)
                              class_name)
                (fun s => registry_same st s) args) with (st := st)
      as (st1 & Hargs & Hsame1).
    { intros x s Hx Hs. rewrite Forall_forall in IHargs.
      destruct (IHargs x (proj2 (list_elem_of_In _ _) Hx) s) as (s' & Hrun & Hs').
      - destruct Hs as [-> _]. exact Hc.
      - exists s'. split; [exact Hrun|].
        eapply registry_same_trans; eassumption. }
    { apply registry_same_refl. }
    rewrite (bind_after_return _ _ _ _ _ Hargs).
    assert (Hc1 : classes st1 !! class_name = Some c)
      by (destruct Hsame1 as [-> _]; exact Hc).
    destruct Hsame1 as [Hcl Hinh].
    destruct (contains_dot (as_string func));
      [destruct (negb (String.eqb (split_dot_first (as_string func))
                         class_name))|];
      unfold bind, class_of, subscript, ret, update_class, update_method, when;
      simpl; rewrite ?Hc1; simpl; eexists; (split; [reflexivity|]);
      split; simpl; assumption.
Qed.

(** X3. Given a method dictionary and a registered class name, the walk
    returns on every expression, and leaves the registry names and the
    inheritance map as they were. *)
Theorem walk_on_method_dictionary_returns (e : expr) (l c : loc)
    (class_name : string) (st : state) :
  classes st !! class_name = Some c ->
  exists st',
    _extract_used_attributes_recursive e (DictObj l) class_name st
    = Returns tt st' /\
    registry_same st st'.
Proof. apply walk_returns. Qed.

Lemma walk_on_method_dictionary_returns_witness :
  exists st',
    _extract_used_attributes_recursive
      (Call (Attribute (Name "other") "run") [Attribute self "x"] [])
      (DictObj _METHOD_INIT) "A"
      (final_state (bind_class "A" _CLASS_INIT init_state))
    = Returns tt st' /\
    registry_same (final_state (bind_class "A" _CLASS_INIT init_state)) st'.
Proof.
  apply (walk_on_method_dictionary_returns _ _METHOD_INIT _CLASS_INIT "A").
  vm_compute. reflexivity.
Defined.

(** A loop whose iterations, from a state that satisfies [I], return into
    such a state or raise [e], does the same. *)
Lemma for_each_returns_or_raises {A} (f : A -> M unit) (I : state -> Prop)
    (e : exn) (xs : list A) :
  (forall x st, In x xs -> I st ->
                (exists st', f x st = Returns tt st' /\ I st') \/
                (exists st', f x st = Raises e st')) ->
  forall st, I st ->
             (exists st', for_each f xs st = Returns tt st' /\ I st') \/
             (exists st', for_each f xs st = Raises e st').
Proof.
  induction xs as [|x rest IH]; intros Hf st Hst; simpl.
  - left. exists st. split; [reflexivity | exact Hst].
  - destruct (Hf x st (or_introl eq_refl) Hst)
      as [(st1 & Hx & Hst1)|(st1 & Hx)].
    + rewrite (bind_after_return _ _ _ _ _ Hx).
      apply IH; [|exact Hst1]. intros y s Hy. apply Hf. right; exact Hy.
    + right. exists st1. apply bind_after_raise, Hx.
Qed.

(** With a syntax node in the place of the dictionary and a registered
    class name, the walk returns at once on names and constants and raises
    [TypeError] on every call and on every attribute access. *)
Lemma walk_on_node_outcome (e : expr) (n : stmt) (c : loc)
    (class_name : string) (st : state) :
  classes st !! class_name = Some c ->
  match e with
  | Call _ _ _ | Attribute _ _ =>
      exists st', _extract_used_attributes_recursive e (NodeObj n) class_name st
                  = Raises TypeError st'
  | _ => _extract_used_attributes_recursive e (NodeObj n) class_name st
         = Returns tt st
  end.
Proof.
  revert st.
  induction e as [name|repr|receiver attrname _|func args keywords _ IHargs]
    using expr_args_ind; intros st Hc; simpl; try reflexivity.
  - destruct (negb _);
      unfold bind, class_of, subscript, ret, raise, update_class;
      rewrite ?Hc; simpl; eexists; reflexivity.
  - destruct (for_each_returns_or_raises
                (fun arg => _extract_used_attributes_recursive arg (NodeObj n)
                              class_name)
                (fun s => classes s = classes st) TypeError args)
      with (st := st) as [(st1 & Hargs & _)|(st1 & Hargs)].
    + intros x s Hx Hs. rewrite Forall_forall in IHargs.
      assert (Hcs : classes s !! class_name = Some c) by (rewrite Hs; exact Hc).
      specialize (IHargs x (proj2 (list_elem_of_In _ _) Hx) s Hcs).
      destruct x; [left; exists s; auto | left; exists s; auto | right | right];
        exact IHargs.
    + reflexivity.
    + rewrite (bind_after_return _ _ _ _ _ Hargs).
      exists st1. reflexivity.
    + exists st1. apply bind_after_raise, Hargs.
Qed.

(** X4. In a class body of a registered class, an expression statement
    whose value is a call or an attribute access makes the extraction raise
    [TypeError]; on any other value it returns and changes nothing. *)
Theorem class_body_expression_statement_outcome (value : expr) (c : loc)
    (class_name : string) (st : state) :
  classes st !! class_name = Some c ->
  match value with
  | Call _ _ _ | Attribute _ _ =>
      exists st', extract_class_node class_name (Expr value) st
                  = Raises TypeError st'
  | _ => extract_class_node class_name (Expr value) st = Returns tt st
  end.
Proof.
  intros Hc. pose proof (walk_on_node_outcome value (Expr value) c class_name
                           st Hc) as Hwalk.
  unfold extract_class_node.
  rewrite (bind_after_return (ret tt) _ st tt st eq_refl).
  rewrite (bind_after_return (ret tt) _ st tt st eq_refl).
  exact Hwalk.
Qed.

Lemma class_body_expression_statement_outcome_witness :
  exists st',
    extract_class_node "A" (Expr (Call (Name "f") [Name "x"] []))
      (final_state (bind_class "A" _CLASS_INIT init_state))
    = Raises TypeError st'.
Proof.
  apply (class_body_expression_statement_outcome
           (Call (Name "f") [Name "x"] []) _CLASS_INIT "A").
  vm_compute. reflexivity.
Defined.

(** ** Relating a state to the state a run ends in *)

Section Frames.
Variable R : state -> state -> Prop.
Hypothesis R_refl : forall st, R st st.
Hypothesis R_trans : forall st1 st2 st3, R st1 st2 -> R st2 st3 -> R st1 st3.

Lemma frames_ret {A} (a : A) : frames R (ret a).
Proof. intros st. apply R_refl. Qed.

Lemma frames_raise {A} (e : exn) : frames R (@raise A e).
Proof. intros st. apply R_refl. Qed.

Lemma frames_lift_result {A} (r : result A) : frames R (lift_result r).
Proof. destruct r; [apply frames_ret | apply frames_raise]. Qed.

Lemma frames_bind {A B} (c : M A) (k : A -> M B) :
  frames R c -> (forall a, frames R (k a)) -> frames R (bind c k).
Proof.
  intros Hc Hk st. unfold bind. specialize (Hc st).
  destruct (c st) as [a st1|e st1]; simpl in *; [|exact Hc].
  eapply R_trans; [exact Hc | apply Hk].
Qed.

Lemma frames_when (b : bool) (c : M unit) : frames R c -> frames R (when b c).
Proof. destruct b; simpl; [auto | intros _; apply frames_ret]. Qed.

Lemma frames_for_each {A} (f : A -> M unit) (xs : list A) :
  (forall x, frames R (f x)) -> frames R (for_each f xs).
Proof.
  intros Hf. induction xs as [|x rest IH]; simpl.
  - apply frames_ret.
  - apply frames_bind; [apply Hf | intros _; exact IH].
Qed.
End Frames.

Lemma frames_returns {A} (R : state -> state -> Prop) (c : M A) st a st' :
  frames R c -> c st = Returns a st' -> R st st'.
Proof. intros Hc Hrun. specialize (Hc st). rewrite Hrun in Hc. exact Hc. Qed.

Lemma frames_raises {A} (R : state -> state -> Prop) (c : M A) st e st' :
  frames R c -> c st = Raises e st' -> R st st'.
Proof. intros Hc Hrun. specialize (Hc st). rewrite Hrun in Hc. exact Hc. Qed.

Ltac frame_steps refl trans prim :=
  repeat first
    [ simple apply (frames_ret _ refl)
    | simple apply (frames_raise _ refl)
    | simple apply (frames_lift_result _ refl)
    | simple apply (frames_when _ refl)
    | simple apply (frames_bind _ trans); [|intros ?]
    | simple apply (frames_for_each _ refl trans); intros ?
    | prim ].

(** *** The steps that leave the registry *)

Ltac unchanged_registry :=
  let st := fresh "st" in
  intros st; cbv [update_class update_method class_of subscript class_known
                  attr_instance_of target_name ret raise];
  repeat match goal with
         | |- context [match ?x with _ => _ end] => destruct x
         end;
  split; reflexivity.

Lemma update_class_registry l f : frames registry_same (update_class l f).
Proof. unchanged_registry. Qed.

Lemma update_method_registry l f : frames registry_same (update_method l f).
Proof. unchanged_registry. Qed.

Lemma class_of_registry class_name : frames registry_same (class_of class_name).
Proof. unchanged_registry. Qed.

Lemma subscript_registry dict : frames registry_same (subscript dict).
Proof. unchanged_registry. Qed.

Lemma attr_instance_of_registry i : frames registry_same (attr_instance_of i).
Proof. unchanged_registry. Qed.

Lemma target_name_registry tgt : frames registry_same (target_name tgt).
Proof. unchanged_registry. Qed.

Ltac registry_prim :=
  first [ simple apply update_class_registry
        | simple apply update_method_registry
        | simple apply class_of_registry
        | simple apply subscript_registry
        | simple apply attr_instance_of_registry
        | simple apply target_name_registry ].

Ltac registry_steps :=
  frame_steps registry_same_refl registry_same_trans registry_prim.

Lemma walk_registry (e : expr) dict class_name :
  frames registry_same (_extract_used_attributes_recursive e dict class_name).
Proof.
  induction e as [name|repr|receiver attrname _|func args keywords _ IHargs]
    using expr_args_ind; simpl.
  - registry_steps.
  - registry_steps.
  - destruct (negb _); registry_steps.
  - apply (frames_bind _ registry_same_trans).
    + clear -IHargs. induction IHargs as [|a rest Ha _ IH]; simpl.
      * registry_steps.
      * apply (frames_bind _ registry_same_trans); [apply Ha | intros _; exact IH].
    + intros _. registry_steps.
Qed.

Lemma extract_self_attributes_registry (n : stmt) dict class_name :
  frames registry_same (_extract_self_attributes n dict class_name).
Proof.
  destruct n; simpl; registry_steps.
  match goal with |- frames _ (match ?t with _ => _ end) => destruct t end;
    registry_steps.
Qed.

Lemma extract_method_node_registry dict class_name (s : stmt) :
  frames registry_same (extract_method_node dict class_name s).
Proof.
  unfold extract_method_node.
  apply (frames_bind _ registry_same_trans); [|intros _].
  - destruct s; registry_steps. apply extract_self_attributes_registry.
  - destruct s; registry_steps; apply walk_registry.
Qed.

Lemma extract_methods_registry (n : stmt) class_name :
  frames registry_same (_extract_methods n class_name).
Proof.
  destruct n; simpl; registry_steps; apply extract_method_node_registry.
Qed.

Lemma extract_class_node_registry (class_name : string) (class_node : stmt) :
  frames registry_same (extract_class_node class_name class_node).
Proof.
  unfold extract_class_node.
  apply (frames_bind _ registry_same_trans);
    [|intros _; apply (frames_bind _ registry_same_trans); [|intros _]].
  - destruct class_node; registry_steps; apply extract_methods_registry.
  - destruct class_node; registry_steps.
  - destruct class_node; registry_steps; apply walk_registry.
Qed.

(** ** The class header *)

(** The extraction of a simple-name base returns; it writes the entry of
    the class in the inheritance map and leaves the registry names. *)
Lemma extract_inheritance_effect (base_class class_name : string) (st : state) :
  exists st',
    _extract_inheritance (Name base_class) class_name st = Returns tt st' /\
    classes st' = classes st /\
    inheritances st' = <[class_name := base_class]> (inheritances st).
Proof.
  unfold _extract_inheritance, bind, bind_inheritance, class_known, when,
    class_of, update_class, ret. simpl.
  destruct (classes st !! base_class) as [c|] eqn:Hb.
  - rewrite bool_decide_eq_true_2 by eauto. simpl. rewrite Hb.
    eexists. split; [reflexivity|]. split; reflexivity.
  - rewrite bool_decide_eq_false_2 by (intros [? ?]; discriminate).
    eexists. split; [reflexivity|]. split; reflexivity.
Qed.

(** The loop over the bases returns; the entry of the class is then the
    last simple-name base, if there is one. *)
Lemma bases_loop_effect (class_name : string) (bases : list expr) :
  forall (acc : option string) (st0 st : state),
    classes st = classes st0 ->
    inheritances st = match acc with
                      | Some b => <[class_name := b]> (inheritances st0)
                      | None => inheritances st0
                      end ->
    exists st',
      for_each (fun base => match base with
                            | Name _ => _extract_inheritance base class_name
                            | _ => ret tt
                            end) bases st = Returns tt st' /\
      classes st' = classes st0 /\
      inheritances st'
      = match fold_left (fun acc base => match base with
                                         | Name name => Some name
                                         | _ => acc
                                         end) bases acc with
        | Some b => <[class_name := b]> (inheritances st0)
        | None => inheritances st0
        end.
Proof.
  induction bases as [|base rest IH]; intros acc st0 st Hcl Hinh; simpl.
  - exists st. auto.
  - destruct base as [b| | |];
      try (rewrite (bind_after_return (ret tt) _ st tt st eq_refl);
           apply IH; assumption).
    destruct (extract_inheritance_effect b class_name st)
      as (st1 & Hrun & Hcl1 & Hinh1).
    rewrite (bind_after_return _ _ _ _ _ Hrun).
    apply IH; [congruence|].
    rewrite Hinh1, Hinh. destruct acc; [apply insert_insert_eq | reflexivity].
Qed.

(** What a class definition does to the registry when its extraction
    returns. *)
Lemma class_definition_effect (class_name : string) (bases : list expr)
    (body : list stmt) (st st' : state) :
  extract_module_node (ClassDef class_name bases body) st = Returns tt st' ->
  classes st' = <[class_name := _CLASS_INIT]> (classes st) /\
  inheritances st' = match last_name_base bases with
                     | Some b => <[class_name := b]> (inheritances st)
                     | None => inheritances st
                     end.
Proof.
  simpl. intros Hrun.
  apply bind_returns in Hrun as ([] & st1 & Hbind & Hrun).
  injection Hbind as <-.
  apply bind_returns in Hrun as ([] & st2 & Hbody & Hrun).
  assert (Hsame : registry_same
                    (final_state (bind_class class_name _CLASS_INIT st)) st2).
  { eapply frames_returns; [|exact Hbody].
    apply (frames_for_each _ registry_same_refl registry_same_trans).
    intros x. apply extract_class_node_registry. }
  destruct Hsame as [Hcl Hinh]. simpl in Hcl, Hinh.
  destruct (bases_loop_effect class_name bases None st2 st2 eq_refl eq_refl)
    as (st3 & Hrun' & Hcl3 & Hinh3).
  rewrite Hrun' in Hrun. injection Hrun as <-.
  unfold last_name_base. rewrite Hcl3, Hinh3, Hcl, Hinh. auto.
Qed.

(** X5. When the extraction of a class definition returns, the class name
    is bound in the registry, and its entry in the inheritance map is the
    last base that is a simple name; with no such base the map is left as it
    was, an entry from an earlier definition of the name included. *)
Theorem class_definition_registers_last_name_base (class_name : string)
    (bases : list expr) (body : list stmt) (st st' : state) :
  extract_module_node (ClassDef class_name bases body) st = Returns tt st' ->
  classes st' = <[class_name := _CLASS_INIT]> (classes st) /\
  inheritances st' = match last_name_base bases with
                     | Some b => <[class_name := b]> (inheritances st)
                     | None => inheritances st
                     end.
Proof. apply class_definition_effect. Qed.

Lemma class_definition_registers_last_name_base_witness :
  exists st',
    extract_module_node
      (ClassDef "C" [Name "A"; Attribute (Name "pkg") "B"; Name "D"] [Pass])
      init_state = Returns tt st' /\
    classes st' = <["C" := _CLASS_INIT]> (classes init_state) /\
    inheritances st' = <["C" := "D"]> (inheritances init_state).
Proof.
  eexists. split; [vm_compute; reflexivity|].
  apply (class_definition_registers_last_name_base
           "C" [Name "A"; Attribute (Name "pkg") "B"; Name "D"] [Pass]
           init_state).
  vm_compute. reflexivity.
Defined.

(** ** Whole modules *)

Lemma module_loop_class_names (body : list stmt) :
  forall st st',
    for_each extract_module_node body st = Returns tt st' ->
    dom (classes st')
    = dom (classes st) ∪ list_to_set (module_class_names body).
Proof.
  induction body as [|s rest IH]; intros st st' Hrun; simpl in Hrun.
  - apply ret_returns in Hrun as [_ <-]. simpl.
    rewrite union_empty_r_L. reflexivity.
  - apply bind_returns in Hrun as ([] & st1 & Hs & Hrest).
    specialize (IH _ _ Hrest). rewrite IH. clear IH Hrest.
    destruct s;
      try (simpl in Hs; apply ret_returns in Hs as [_ <-]; reflexivity).
    apply class_definition_effect in Hs as [Hcl _].
    rewrite Hcl, dom_insert_L. simpl.
    rewrite (union_comm_L {[name]} (dom (classes st))), union_assoc_L.
    reflexivity.
Qed.

(** X6. When the extraction of a module returns, the names of the registry
    are those it had before and the names of the classes defined directly
    in the module body; classes nested in functions or in other classes are
    not registered. *)
Theorem registry_names_are_module_classes (body : list stmt)
    (st st' : state) :
  extract_code_data (ModuleNode body) st = Returns tt st' ->
  dom (classes st')
  = dom (classes st) ∪ list_to_set (module_class_names body).
Proof.
  unfold extract_code_data, _extract_classes_data,
    _translate_attributes_to_classes.
  intros Hrun. apply bind_returns in Hrun as ([] & st1 & Hloop & Hret).
  apply ret_returns in Hret as [_ <-].
  apply module_loop_class_names, Hloop.
Qed.

Lemma registry_names_are_module_classes_witness :
  exists st',
    extract_code_data
      (ModuleNode [MySuperParent;
                   FunctionDef "f" [] [ClassDef "Local" [] [Pass]];
                   ClassDef "Outer" [] [ClassDef "Inner" [] [Pass]]])
      init_state = Returns tt st' /\
    dom (classes st') = {["MySuperParent"; "Outer"]}.
Proof.
  eexists. split; [vm_compute; reflexivity|].
  rewrite (registry_names_are_module_classes
             [MySuperParent;
              FunctionDef "f" [] [ClassDef "Local" [] [Pass]];
              ClassDef "Outer" [] [ClassDef "Inner" [] [Pass]]]
             init_state _ ltac:(vm_compute; reflexivity)).
  vm_compute. reflexivity.
Defined.

(** X7. A module without a class definition directly in its body leaves the
    parser as it was: functions, assignments and imports at module level
    contribute nothing. *)
Theorem module_without_classes_changes_nothing (body : list stmt)
    (st : state) :
  module_class_names body = [] ->
  extract_code_data (ModuleNode body) st = Returns tt st.
Proof.
  unfold extract_code_data, _extract_classes_data,
    _translate_attributes_to_classes.
  intros Hnames.
  assert (Hloop : for_each extract_module_node body st = Returns tt st).
  { induction body as [|s rest IH]; simpl; [reflexivity|].
    destruct s; simpl in Hnames; try discriminate;
      rewrite (bind_after_return (ret tt) _ st tt st eq_refl);
      apply IH, Hnames. }
  rewrite (bind_after_return _ _ _ _ _ Hloop). reflexivity.
Qed.

Lemma module_without_classes_changes_nothing_witness :
  extract_code_data (ModuleNode [Import ["os"]; my_function]) init_state
  = Returns tt init_state.
Proof.
  apply (module_without_classes_changes_nothing [Import ["os"]; my_function]).
  reflexivity.
Defined.

(** ** Nothing is taken out *)

Lemma class_dict_le_refl (c : ClassDict) : class_dict_le c c.
Proof. repeat split; try reflexivity. Qed.

Lemma class_dict_le_trans (c1 c2 c3 : ClassDict) :
  class_dict_le c1 c2 -> class_dict_le c2 c3 -> class_dict_le c1 c3.
Proof.
  intros (?&?&?&?&?&?&?) (?&?&?&?&?&?&?).
  repeat split; first [etrans; eassumption | lia].
Qed.

Lemma store_le_refl (st : state) : store_le st st.
Proof.
  split; [apply state_le_refl|]. split; [intros l; apply class_dict_le_refl|].
  split; reflexivity.
Qed.

Lemma store_le_trans (st1 st2 st3 : state) :
  store_le st1 st2 -> store_le st2 st3 -> store_le st1 st3.
Proof.
  intros (Hm12 & Hc12 & Hd12 & Hi12) (Hm23 & Hc23 & Hd23 & Hi23).
  split; [eapply state_le_trans; eassumption|].
  split; [intros l; eapply class_dict_le_trans; [apply Hc12 | apply Hc23]|].
  split; etrans; eassumption.
Qed.

Lemma class_growing_add_coupled_class x : class_growing (add_coupled_class x).
Proof.
  intros c. repeat split; simpl; try reflexivity; try lia.
  apply union_subseteq_l.
Qed.

Lemma class_growing_add_attribute x : class_growing (add_attribute x).
Proof.
  intros c. repeat split; simpl; try reflexivity; try lia.
  apply union_subseteq_l.
Qed.

Lemma class_growing_add_variable x : class_growing (add_variable x).
Proof.
  intros c. repeat split; simpl; try reflexivity; try lia.
  apply union_subseteq_l.
Qed.

Lemma class_growing_set_method name l : class_growing (set_method name l).
Proof.
  intros c. repeat split; simpl; try reflexivity; try lia.
  rewrite dom_insert_L. apply union_subseteq_r.
Qed.

Lemma class_growing_increment_direct_children :
  class_growing increment_direct_children.
Proof. intros c. repeat split; simpl; try reflexivity; lia. Qed.

#[local] Hint Resolve class_growing_add_coupled_class
  class_growing_add_attribute class_growing_add_variable
  class_growing_set_method class_growing_increment_direct_children : parser.

Lemma update_class_store l f :
  class_growing f -> frames store_le (update_class l f).
Proof.
  intros Hf st. simpl. split; [|split; [|split; reflexivity]].
  - intros l'. simpl. split; [auto | apply dict_le_refl].
  - intros l'. simpl. destruct (decide (l = l')) as [->|Hne].
    + rewrite lookup_total_insert_eq. apply Hf.
    + rewrite lookup_total_insert_ne by done. apply class_dict_le_refl.
Qed.

Lemma update_method_store l f :
  growing f -> frames store_le (update_method l f).
Proof.
  intros Hf st. split; [|split; [|split; reflexivity]].
  - eapply update_method_le; [exact Hf | reflexivity].
  - intros l'. apply class_dict_le_refl.
Qed.

Lemma bind_class_store class_name l : frames store_le (bind_class class_name l).
Proof.
  intros st. split; [|split; [|split]]; simpl.
  - intros l'. split; [auto | apply dict_le_refl].
  - intros l'. apply class_dict_le_refl.
  - rewrite dom_insert_L. apply union_subseteq_r.
  - reflexivity.
Qed.

Lemma bind_inheritance_store class_name base_class :
  frames store_le (bind_inheritance class_name base_class).
Proof.
  intros st. split; [|split; [|split]]; simpl.
  - intros l'. split; [auto | apply dict_le_refl].
  - intros l'. apply class_dict_le_refl.
  - reflexivity.
  - rewrite dom_insert_L. apply union_subseteq_r.
Qed.

Lemma frames_unchanged {A} (R : state -> state -> Prop) (c : M A) :
  (forall st, R st st) ->
  (forall st, final_state (c st) = st) -> frames R c.
Proof. intros Hrefl Hc st. rewrite Hc. apply Hrefl. Qed.

Ltac unchanged_state :=
  let st := fresh "st" in
  intros st; cbv [class_of subscript class_known attr_instance_of target_name
                  ret raise];
  repeat match goal with
         | |- context [match ?x with _ => _ end] => destruct x
         end;
  reflexivity.

Lemma class_of_unchanged class_name st :
  final_state (class_of class_name st) = st.
Proof. revert st. unchanged_state. Qed.

Lemma subscript_unchanged dict st : final_state (subscript dict st) = st.
Proof. revert st. unchanged_state. Qed.

Lemma class_known_unchanged name st : final_state (class_known name st) = st.
Proof. revert st. unchanged_state. Qed.

Lemma attr_instance_of_unchanged i st :
  final_state (attr_instance_of i st) = st.
Proof. revert st. unchanged_state. Qed.

Lemma target_name_unchanged tgt st : final_state (target_name tgt st) = st.
Proof. revert st. unchanged_state. Qed.

Ltac unchanged_prim refl :=
  first [ simple apply (frames_unchanged _ _ refl (class_of_unchanged _))
        | simple apply (frames_unchanged _ _ refl (subscript_unchanged _))
        | simple apply (frames_unchanged _ _ refl (class_known_unchanged _))
        | simple apply (frames_unchanged _ _ refl (attr_instance_of_unchanged _))
        | simple apply (frames_unchanged _ _ refl (target_name_unchanged _)) ].

Ltac store_prim :=
  first [ simple apply update_class_store; solve [auto with parser]
        | simple apply update_method_store; solve [auto with parser]
        | simple apply bind_class_store
        | simple apply bind_inheritance_store
        | unchanged_prim store_le_refl ].

Ltac store_steps := frame_steps store_le_refl store_le_trans store_prim.

Lemma walk_store (e : expr) dict class_name :
  frames store_le (_extract_used_attributes_recursive e dict class_name).
Proof.
  induction e as [name|repr|receiver attrname _|func args keywords _ IHargs]
    using expr_args_ind; simpl.
  - store_steps.
  - store_steps.
  - destruct (negb _); store_steps.
  - apply (frames_bind _ store_le_trans).
    + clear -IHargs. induction IHargs as [|a rest Ha _ IH]; simpl.
      * store_steps.
      * apply (frames_bind _ store_le_trans); [apply Ha | intros _; exact IH].
    + intros _. store_steps.
Qed.

Lemma extract_self_attributes_store (n : stmt) dict class_name :
  frames store_le (_extract_self_attributes n dict class_name).
Proof.
  destruct n; simpl; store_steps.
  match goal with |- frames _ (match ?t with _ => _ end) => destruct t end;
    store_steps.
Qed.

Lemma extract_method_node_store dict class_name (s : stmt) :
  frames store_le (extract_method_node dict class_name s).
Proof.
  unfold extract_method_node.
  apply (frames_bind _ store_le_trans); [|intros _].
  - destruct s; store_steps. apply extract_self_attributes_store.
  - destruct s; store_steps; apply walk_store.
Qed.

Lemma extract_methods_store (n : stmt) class_name :
  frames store_le (_extract_methods n class_name).
Proof.
  destruct n; simpl; store_steps; apply extract_method_node_store.
Qed.

Lemma extract_inheritance_store (base : expr) class_name :
  frames store_le (_extract_inheritance base class_name).
Proof. destruct base; simpl; store_steps. Qed.

Lemma extract_class_node_store class_name (s : stmt) :
  frames store_le (extract_class_node class_name s).
Proof.
  unfold extract_class_node.
  apply (frames_bind _ store_le_trans);
    [|intros _; apply (frames_bind _ store_le_trans); [|intros _]].
  - destruct s; store_steps; apply extract_methods_store.
  - destruct s; store_steps.
  - destruct s; store_steps; apply walk_store.
Qed.

Lemma extract_module_node_store (s : stmt) :
  frames store_le (extract_module_node s).
Proof.
  destruct s; simpl; store_steps.
  - apply extract_class_node_store.
  - match goal with |- frames _ (match ?t with _ => _ end) => destruct t end;
      store_steps; apply extract_inheritance_store.
Qed.

Lemma extract_code_data_store (module : node) :
  frames store_le (extract_code_data module).
Proof.
  unfold extract_code_data, _translate_attributes_to_classes,
    _extract_classes_data.
  destruct module; store_steps. apply extract_module_node_store.
Qed.

(** X8. Whatever the module and the state, and whether the extraction
    returns or raises, nothing is taken out: the registry keeps its names,
    the inheritance map its keys, every set of every class and method
    dictionary its elements, every class its methods, and no counter of
    direct children goes down. *)
Theorem extraction_only_adds (module : node) (st : state) :
  store_le st (final_state (extract_code_data module st)).
Proof. apply extract_code_data_store. Qed.

(** ** The children of the inheritance map are registered *)

Lemma preserves_of_registry {A} (I : state -> Prop) (c : M A) :
  (forall st st', registry_same st st' -> I st -> I st') ->
  frames registry_same c -> preserves I c.
Proof. intros HI Hc st Hst. eapply HI; [apply Hc | exact Hst]. Qed.

Lemma class_header_keeps_children_registered (class_name : string)
    (bases : list expr) (body : list stmt) :
  preserves children_registered
    (extract_module_node (ClassDef class_name bases body)).
Proof.
  intros st Hst. simpl.
  rewrite (bind_after_return (bind_class class_name _CLASS_INIT) _ st tt _
             eq_refl).
  set (I := fun s => children_registered s /\ class_name ∈ dom (classes s)).
  assert (HI : forall s s', registry_same s s' -> I s -> I s').
  { intros s s' [Hcl Hinh] [Hs Hin]. unfold I, children_registered.
    rewrite Hcl, Hinh. auto. }
  enough (Hend : I (final_state
                      ((for_each (extract_class_node class_name) body ;;
                        for_each
                          (fun base =>
                             match base with
                             | Name _ => _extract_inheritance base class_name
                             | _ => ret tt
                             end) bases)
                         {| class_dicts := class_dicts st;
                            method_dicts := method_dicts st;
                            classes := <[class_name := _CLASS_INIT]> (classes st);
                            inheritances := inheritances st |})))
    by exact (proj1 Hend).
  apply (preserves_bind I).
  - apply preserves_for_each. intros x.
    apply (preserves_of_registry I _ HI), extract_class_node_registry.
  - intros _. apply preserves_for_each. intros base.
    destruct base as [b| | |]; try apply preserves_ret.
    intros s [Hs Hin].
    destruct (extract_inheritance_effect b class_name s)
      as (s' & Hrun & Hcl & Hinh).
    rewrite Hrun. simpl. unfold I, children_registered.
    rewrite Hcl, Hinh, dom_insert_L. split; [|exact Hin].
    apply union_least; [apply singleton_subseteq_l, Hin | exact Hs].
  - unfold I, children_registered. simpl. rewrite dom_insert_L. split.
    + etrans; [exact Hst | apply union_subseteq_r].
    + apply elem_of_union_l, elem_of_singleton. reflexivity.
Qed.

Lemma extract_code_data_keeps_children_registered (module : node) :
  preserves children_registered (extract_code_data module).
Proof.
  unfold extract_code_data, _translate_attributes_to_classes,
    _extract_classes_data.
  apply preserves_bind; [|intros _; apply preserves_ret].
  destruct module; try apply preserves_raise.
  apply preserves_for_each. intros s.
  destruct s; try apply preserves_ret.
  apply class_header_keeps_children_registered.
Qed.

(** X9. If every key of the inheritance map is a registered class name
    before a module is extracted, so it is after, whether the extraction
    returns or raises. *)
Theorem inheritance_keys_are_registered (module : node) (st : state) :
  children_registered st ->
  children_registered (final_state (extract_code_data module st)).
Proof. apply extract_code_data_keeps_children_registered. Qed.

Lemma inheritance_keys_are_registered_witness :
  children_registered (final_state (extract_code_data test_module init_state)).
Proof.
  apply (inheritance_keys_are_registered test_module init_state).
  unfold children_registered. vm_compute. intros x Hx. exact Hx.
Defined.

(** ** What the extraction of a method leaves in the registry *)

(** The steps of [_extract_methods] when it returns: the two counts are
    written, the loop over the body returns, and the method dictionary is
    put under the method name in the class dictionary. *)
Lemma extract_methods_returns_inv (is_async : bool) (method_name : string)
    (args : list string) (body : list stmt) (class_name : string)
    (st st' : state) :
  _extract_methods (method_def is_async method_name args body) class_name st
  = Returns tt st' ->
  exists st2 st3 c,
    store_le st st2 /\
    registry_same st st2 /\
    is_Some (method_dicts st2 !! _METHOD_INIT) /\
    m_lloc (method_dicts st2 !!! _METHOD_INIT)
    = block_lloc statement_lloc body /\
    m_number_of_parameters (method_dicts st2 !!! _METHOD_INIT)
    = Z.of_nat (length args) /\
    for_each (extract_method_node (DictObj _METHOD_INIT) class_name) body st2
    = Returns tt st3 /\
    classes st3 !! class_name = Some c /\
    st' = set_class_dicts
            (<[c := set_method method_name _METHOD_INIT
                      (class_dicts st3 !!! c)]> (class_dicts st3)) st3.
Proof.
  intros Hrun.
  assert (Hrun' :
    (lloc <- lift_result (count_lloc
                            (StmtNode (method_def is_async method_name args
                                         body))) ;;
     update_method _METHOD_INIT (set_lloc lloc) ;;
     update_method _METHOD_INIT
       (set_number_of_parameters (Z.of_nat (length args))) ;;
     for_each (extract_method_node (DictObj _METHOD_INIT) class_name) body ;;
     c <- class_of class_name ;;
     update_class c (set_method method_name _METHOD_INIT)) st
    = Returns tt st') by (destruct is_async; exact Hrun).
  clear Hrun. rename Hrun' into Hrun.
  rewrite count_lloc_method_def in Hrun.
  apply bind_returns in Hrun as (lloc & st0 & Hlloc & Hrun).
  apply ret_returns in Hlloc as [<- <-].
  apply bind_returns in Hrun as ([] & st1 & Hset & Hrun).
  apply bind_returns in Hrun as ([] & st2 & Hpar & Hrun).
  apply bind_returns in Hrun as ([] & st3 & Hbody & Hrun).
  apply bind_returns in Hrun as (c & st4 & Hc & Hrun).
  apply class_of_returns in Hc as [Hc <-].
  injection Hrun as <-.
  exists st2, st3, c.
  assert (Hle1 : store_le st st1)
    by (eapply frames_returns; [|exact Hset];
        apply update_method_store; auto with parser).
  assert (Hle2 : store_le st1 st2)
    by (eapply frames_returns; [|exact Hpar];
        apply update_method_store; auto with parser).
  injection Hset as <-. injection Hpar as <-.
  split; [eapply store_le_trans; eassumption|].
  split; [split; reflexivity|].
  split; [simpl; rewrite lookup_insert_eq; eauto|].
  split; [simpl; rewrite !lookup_total_insert_eq; reflexivity|].
  split; [simpl; rewrite !lookup_total_insert_eq; reflexivity|].
  split; [exact Hbody|]. split; [exact Hc | reflexivity].
Qed.

Lemma method_record_after_set_method (method_name class_name : string)
    (c l : loc) (st : state) :
  classes st !! class_name = Some c ->
  method_record
    (set_class_dicts
       (<[c := set_method method_name l (class_dicts st !!! c)]>
          (class_dicts st)) st)
    class_name method_name
  = method_dicts st !! l.
Proof.
  intros Hc. unfold method_record, class_record. simpl. rewrite Hc.
  rewrite lookup_insert_eq. simpl. rewrite lookup_insert_eq. reflexivity.
Qed.

Lemma counts_same_refl l st : counts_same l st st.
Proof. split; reflexivity. Qed.

Lemma counts_same_trans l st1 st2 st3 :
  counts_same l st1 st2 -> counts_same l st2 st3 -> counts_same l st1 st3.
Proof. intros [? ?] [? ?]. split; congruence. Qed.

Lemma counts_kept_add_called x : counts_kept (add_called x).
Proof. intros m. split; reflexivity. Qed.

Lemma counts_kept_add_accessed_attribute x :
  counts_kept (add_accessed_attribute x).
Proof. intros m. split; reflexivity. Qed.

#[local] Hint Resolve counts_kept_add_called
  counts_kept_add_accessed_attribute : parser.

Lemma update_method_counts l l' f :
  counts_kept f -> frames (counts_same l) (update_method l' f).
Proof.
  intros Hf st. unfold counts_same. simpl.
  destruct (decide (l' = l)) as [->|Hne].
  - rewrite lookup_total_insert_eq. apply Hf.
  - rewrite lookup_total_insert_ne by done. split; reflexivity.
Qed.

Lemma update_class_counts l l' f : frames (counts_same l) (update_class l' f).
Proof. intros st. split; reflexivity. Qed.

Ltac counts_prim l :=
  first [ simple apply update_method_counts; solve [auto with parser]
        | simple apply update_class_counts
        | unchanged_prim (counts_same_refl l) ].

Ltac counts_steps l :=
  frame_steps (counts_same_refl l) (counts_same_trans l) ltac:(counts_prim l).

Lemma walk_counts l (e : expr) dict class_name :
  frames (counts_same l)
    (_extract_used_attributes_recursive e dict class_name).
Proof.
  induction e as [name|repr|receiver attrname _|func args keywords _ IHargs]
    using expr_args_ind; simpl.
  - counts_steps l.
  - counts_steps l.
  - destruct (negb _); counts_steps l.
  - apply (frames_bind _ (counts_same_trans l)).
    + clear -IHargs. induction IHargs as [|a rest Ha _ IH]; simpl.
      * counts_steps l.
      * apply (frames_bind _ (counts_same_trans l));
          [apply Ha | intros _; exact IH].
    + intros _. counts_steps l.
Qed.

Lemma extract_self_attributes_counts l (n : stmt) dict class_name :
  frames (counts_same l) (_extract_self_attributes n dict class_name).
Proof.
  destruct n; simpl; counts_steps l.
  match goal with |- frames _ (match ?t with _ => _ end) => destruct t end;
    counts_steps l.
Qed.

Lemma extract_method_node_counts l dict class_name (s : stmt) :
  frames (counts_same l) (extract_method_node dict class_name s).
Proof.
  unfold extract_method_node.
  apply (frames_bind _ (counts_same_trans l)); [|intros _].
  - destruct s; counts_steps l. apply extract_self_attributes_counts.
  - destruct s; counts_steps l; apply walk_counts.
Qed.

(** X10. When the extraction of a method returns, the record under its
    class and name holds the logical-line count of its body and the number
    of its positional parameters, the receiver included: the walk over the
    body does not write them. *)
Theorem method_record_holds_counts (is_async : bool) (method_name : string)
    (args : list string) (body : list stmt) (class_name : string)
    (st st' : state) :
  _extract_methods (method_def is_async method_name args body) class_name st
  = Returns tt st' ->
  exists m,
    method_record st' class_name method_name = Some m /\
    m_lloc m = block_lloc statement_lloc body /\
    m_number_of_parameters m = Z.of_nat (length args).
Proof.
  intros Hrun.
  apply extract_methods_returns_inv in Hrun
    as (st2 & st3 & c & _ & _ & Hsome & Hlloc & Hpar & Hbody & Hc & ->).
  rewrite (method_record_after_set_method _ _ _ _ _ Hc).
  assert (Hle : store_le st2 st3).
  { eapply frames_returns; [|exact Hbody].
    apply (frames_for_each _ store_le_refl store_le_trans).
    intros x. apply extract_method_node_store. }
  assert (Hsame : counts_same _METHOD_INIT st2 st3).
  { eapply frames_returns; [|exact Hbody].
    apply (frames_for_each _ (counts_same_refl _) (counts_same_trans _)).
    intros x. apply extract_method_node_counts. }
  destruct Hle as [Hle _]. destruct (proj1 (Hle _METHOD_INIT) Hsome) as [m Hm].
  exists m. split; [exact Hm|].
  rewrite <- (lookup_total_correct _ _ _ Hm).
  destruct Hsame as [-> ->]. auto.
Qed.

Lemma method_record_holds_counts_witness :
  exists st' m,
    _extract_methods MyClass_init "MyClass"
      (final_state (bind_class "MyClass" _CLASS_INIT init_state))
    = Returns tt st' /\
    method_record st' "MyClass" "__init__" = Some m /\
    m_lloc m = 3 /\
    m_number_of_parameters m = 2.
Proof.
  eexists.
  destruct (method_record_holds_counts false "__init__" ["self"; "value"]
              [Assign [AssignAttr self "instance_variable" Uninferable]
                 (Name "value");
               Assign [AssignAttr self "UsedClassAttribute"
                         (Instance ".UsedClass")]
                 (Call (Name "UsedClass") [] []);
               Assign [AssignName "usedClassVariable"]
                 (Call (Name "UsedClass") [] [])]
              "MyClass"
              (final_state (bind_class "MyClass" _CLASS_INIT init_state))
              _ ltac:(vm_compute; reflexivity))
    as (m & Hm & Hlloc & Hpar).
  exists m. split; [vm_compute; reflexivity|]. auto.
Defined.

(** ** When the extraction of a method returns *)

(** A loop raises at its first element that fails [p], when the elements
    that pass [p] return and keep [I], and the others raise. *)
Lemma for_each_first_failure {A} (f : A -> M unit) (I : state -> Prop)
    (p : A -> bool) (E : exn -> Prop) (xs : list A) :
  (forall x st, I st -> p x = true ->
                exists st', f x st = Returns tt st' /\ I st') ->
  (forall x st, I st -> p x = false ->
                exists e st', f x st = Raises e st' /\ E e) ->
  forallb p xs = false ->
  forall st, I st -> exists e st', for_each f xs st = Raises e st' /\ E e.
Proof.
  intros Hok Hbad. induction xs as [|x rest IH]; intros Hall st Hst;
    simpl in Hall; [discriminate|].
  simpl. destruct (p x) eqn:Hp.
  - destruct (Hok x st Hst Hp) as (st1 & Hx & Hst1).
    rewrite (bind_after_return _ _ _ _ _ Hx). apply IH; assumption.
  - destruct (Hbad x st Hst Hp) as (e & st1 & Hx & He).
    exists e, st1. split; [apply bind_after_raise, Hx | exact He].
Qed.

Lemma for_each_all_pass {A} (f : A -> M unit) (I : state -> Prop)
    (p : A -> bool) (xs : list A) :
  (forall x st, I st -> p x = true ->
                exists st', f x st = Returns tt st' /\ I st') ->
  forallb p xs = true ->
  forall st, I st -> exists st', for_each f xs st = Returns tt st' /\ I st'.
Proof.
  intros Hok Hall. apply for_each_returns.
  intros x st Hx Hst. apply Hok; [exact Hst|].
  rewrite forallb_forall in Hall. apply Hall, Hx.
Qed.

Section MethodOutcome.
Variables (l c : loc) (class_name : string) (st0 : state).
Hypothesis Hclass : classes st0 !! class_name = Some c.

Lemma target_conclusive_returns (tgt : target) (st : state) :
  registry_same st0 st -> conclusive tgt = true ->
  exists st',
    match tgt with
    | AssignAttr _ attr_name i =>
        attr_instance <- attr_instance_of i ;;
        c <- class_of class_name ;;
        update_class c (add_attribute (attr_name, attr_instance)) ;;
        d <- subscript (DictObj l) ;;
        update_method d (add_accessed_attribute attr_name)
    | _ => ret tt
    end st = Returns tt st' /\ registry_same st0 st'.
Proof.
  intros [Hcl Hinh] Hcon.
  assert (Hc : classes st !! class_name = Some c) by (rewrite Hcl; exact Hclass).
  destruct tgt as [|r a i| |]; try (exists st; split; [reflexivity|split; assumption]).
  destruct i as [| |[|ch rest]]; simpl in Hcon; try discriminate;
    unfold bind, attr_instance_of, class_of, subscript, ret, update_class,
      update_method; simpl; try destruct (Ascii.eqb ch "."%char);
    rewrite Hc; simpl; eexists; (split; [reflexivity|]); split; assumption.
Qed.

Lemma target_inconclusive_raises (tgt : target) (st : state) :
  conclusive tgt = false ->
  exists e st',
    match tgt with
    | AssignAttr _ attr_name i =>
        attr_instance <- attr_instance_of i ;;
        c <- class_of class_name ;;
        update_class c (add_attribute (attr_name, attr_instance)) ;;
        d <- subscript (DictObj l) ;;
        update_method d (add_accessed_attribute attr_name)
    | _ => ret tt
    end st = Raises e st' /\ inference_error e.
Proof.
  intros Hcon. destruct tgt as [|r a i| |]; simpl in Hcon; try discriminate.
  destruct i as [| |[|ch rest]]; try discriminate.
  - exists InferenceError, st. split; [reflexivity | left; reflexivity].
  - exists IndexError, st. split; [reflexivity | right; reflexivity].
Qed.

Lemma method_node_conclusive_returns (s : stmt) (st : state) :
  registry_same st0 st ->
  match s with
  | Assign targets _ => forallb conclusive targets
  | _ => true
  end = true ->
  exists st',
    extract_method_node (DictObj l) class_name s st = Returns tt st' /\
    registry_same st0 st'.
Proof.
  intros Hsame Hcon. unfold extract_method_node.
  assert (Hself : exists st1,
             match s with
             | Assign _ _ => _extract_self_attributes s (DictObj l) class_name
             | _ => ret tt
             end st = Returns tt st1 /\ registry_same st0 st1).
  { destruct s; try (exists st; split; [reflexivity | exact Hsame]).
    simpl. apply (for_each_all_pass _ (registry_same st0) conclusive);
      [|exact Hcon|exact Hsame].
    intros tgt s Hs Htgt. apply target_conclusive_returns; assumption. }
  destruct Hself as (st1 & Hrun1 & Hsame1).
  rewrite (bind_after_return _ _ _ _ _ Hrun1).
  assert (Hc1 : classes st1 !! class_name = Some c)
    by (destruct Hsame1 as [-> _]; exact Hclass).
  destruct s; try (exists st1; split; [reflexivity | exact Hsame1]);
    destruct (walk_returns value l c class_name st1 Hc1) as (st2 & Hrun2 & Hsame2);
    exists st2; (split; [exact Hrun2|]);
    eapply registry_same_trans; eassumption.
Qed.

Lemma method_node_inconclusive_raises (s : stmt) (st : state) :
  registry_same st0 st ->
  match s with
  | Assign targets _ => forallb conclusive targets
  | _ => true
  end = false ->
  exists e st',
    extract_method_node (DictObj l) class_name s st = Raises e st' /\
    inference_error e.
Proof.
  intros Hsame Hcon. unfold extract_method_node.
  destruct s; try discriminate.
  destruct (for_each_first_failure
              (fun tgt =>
                 match tgt with
                 | AssignAttr _ attr_name i =>
                     attr_instance <- attr_instance_of i ;;
                     c <- class_of class_name ;;
                     update_class c (add_attribute (attr_name, attr_instance)) ;;
                     d <- subscript (DictObj l) ;;
                     update_method d (add_accessed_attribute attr_name)
                 | _ => ret tt
                 end)
              (registry_same st0) conclusive inference_error targets)
    with (st := st) as (e & st1 & Hrun & He); try assumption.
  - intros tgt s Hs Htgt. apply target_conclusive_returns; assumption.
  - intros tgt s _ Htgt. apply target_inconclusive_raises; assumption.
  - exists e, st1. split; [|exact He]. apply bind_after_raise. exact Hrun.
Qed.
End MethodOutcome.

(** X11. For a registered class, the extraction of a method returns when
    the inference is conclusive on every target of the assignments standing
    directly in its body, and raises [InferenceError] or [IndexError]
    otherwise; nothing else in a method body makes it raise. *)
Theorem method_extraction_outcome (is_async : bool) (method_name : string)
    (args : list string) (body : list stmt) (class_name : string) (c : loc)
    (st : state) :
  classes st !! class_name = Some c ->
  if body_conclusive body
  then exists st',
      _extract_methods (method_def is_async method_name args body)
        class_name st = Returns tt st'
  else exists e st',
      _extract_methods (method_def is_async method_name args body)
        class_name st = Raises e st' /\ inference_error e.
Proof.
  intros Hc.
  assert (Heq :
    _extract_methods (method_def is_async method_name args body) class_name
    = (lloc <- lift_result (count_lloc
                              (StmtNode (method_def is_async method_name args
                                           body))) ;;
       update_method _METHOD_INIT (set_lloc lloc) ;;
       update_method _METHOD_INIT
         (set_number_of_parameters (Z.of_nat (length args))) ;;
       for_each (extract_method_node (DictObj _METHOD_INIT) class_name) body ;;
       c <- class_of class_name ;;
       update_class c (set_method method_name _METHOD_INIT)))
    by (destruct is_async; reflexivity).
  rewrite Heq, count_lloc_method_def. clear Heq.
  rewrite (bind_after_return (lift_result (Ok _)) _ st _ st eq_refl).
  rewrite (bind_after_return (update_method _ _) _ st tt _ eq_refl).
  rewrite (bind_after_return (update_method _ _) _ _ tt _ eq_refl).
  match goal with
  | |- context [bind (for_each _ body) _ ?s] => set (st2 := s)
  end.
  assert (Hc2 : classes st2 !! class_name = Some c) by exact Hc.
  unfold body_conclusive.
  set (p := fun s : stmt => match s with
                            | Assign targets _ => forallb conclusive targets
                            | _ => true
                            end).
  destruct (forallb p body) eqn:Hall.
  - destruct (for_each_all_pass
                (extract_method_node (DictObj _METHOD_INIT) class_name)
                (registry_same st2) p body) with (st := st2)
      as (st3 & Hrun & [Hcl _]); [|exact Hall|apply registry_same_refl|].
    + intros s s' Hs Hp.
      eapply method_node_conclusive_returns; eassumption.
    + rewrite (bind_after_return _ _ _ _ _ Hrun).
      unfold bind, class_of. rewrite Hcl, Hc2. eexists. reflexivity.
  - destruct (for_each_first_failure
                (extract_method_node (DictObj _METHOD_INIT) class_name)
                (registry_same st2) p inference_error body) with (st := st2)
      as (e & st3 & Hrun & He); [| |exact Hall|apply registry_same_refl|].
    + intros s s' Hs Hp.
      eapply method_node_conclusive_returns; eassumption.
    + intros s s' Hs Hp.
      eapply method_node_inconclusive_raises; eassumption.
    + exists e, st3. split; [apply bind_after_raise, Hrun | exact He].
Qed.

Lemma method_extraction_outcome_witness :
  (exists st',
      _extract_methods MyClass_init "MyClass"
        (final_state (bind_class "MyClass" _CLASS_INIT init_state))
      = Returns tt st') /\
  (exists e st',
      _extract_methods
        (FunctionDef "m" ["self"]
           [Assign [AssignAttr self "x" InferenceFails] (Name "v")])
        "MyClass"
        (final_state (bind_class "MyClass" _CLASS_INIT init_state))
      = Raises e st' /\ inference_error e).
Proof.
  split.
  - apply (method_extraction_outcome false "__init__" ["self"; "value"]
             [Assign [AssignAttr self "instance_variable" Uninferable]
                (Name "value");
              Assign [AssignAttr self "UsedClassAttribute"
                        (Instance ".UsedClass")]
                (Call (Name "UsedClass") [] []);
              Assign [AssignName "usedClassVariable"]
                (Call (Name "UsedClass") [] [])]
             "MyClass" _CLASS_INIT).
    vm_compute. reflexivity.
  - apply (method_extraction_outcome false "m" ["self"]
             [Assign [AssignAttr self "x" InferenceFails] (Name "v")]
             "MyClass" _CLASS_INIT).
    vm_compute. reflexivity.
Defined.

(** ** Attribute discovery *)

Lemma attribute_recorded_mono class_name l attr i st st' :
  store_le st st' -> registry_same st st' ->
  attribute_recorded class_name l attr i st ->
  attribute_recorded class_name l attr i st'.
Proof.
  intros (Hm & Hcd & _ & _) [Hcl _] Hrec c Hc. rewrite Hcl in Hc.
  destruct (Hrec c Hc) as [Hattr Hacc]. split.
  - destruct (Hcd c) as (_ & _ & _ & Hsub & _). apply Hsub, Hattr.
  - destruct (Hm l) as [_ [_ Hsub]]. apply Hsub, Hacc.
Qed.

Lemma attr_instance_of_value (i : inferred) a st st' :
  attr_instance_of i st = Returns a st' -> a = recorded_type i.
Proof.
  destruct i as [| |[|ch rest]]; simpl; try discriminate.
  - intros [<- _]%ret_returns. reflexivity.
  - destruct (Ascii.eqb ch "."%char); intros [<- _]%ret_returns; reflexivity.
Qed.

(** A run of the loop body of [_extract_self_attributes] on one target is
    a run of the function on an assignment to that target alone. *)
Lemma one_target_run (tgt : target) (value : expr) dict class_name st st' :
  match tgt with
  | AssignAttr _ attr_name i =>
      attr_instance <- attr_instance_of i ;;
      c <- class_of class_name ;;
      update_class c (add_attribute (attr_name, attr_instance)) ;;
      d <- subscript dict ;;
      update_method d (add_accessed_attribute attr_name)
  | _ => ret tt
  end st = Returns tt st' ->
  _extract_self_attributes (Assign [tgt] value) dict class_name st
  = Returns tt st'.
Proof.
  intros Hrun. simpl. rewrite (bind_after_return _ _ _ _ _ Hrun). reflexivity.
Qed.

Lemma self_attributes_recorded (targets : list target) (value : expr)
    (l : loc) (class_name : string) (st st' : state) :
  _extract_self_attributes (Assign targets value) (DictObj l) class_name st
  = Returns tt st' ->
  forall receiver attr i,
    In (AssignAttr receiver attr i) targets ->
    attribute_recorded class_name l attr i st'.
Proof.
  unfold _extract_self_attributes. intros Hrun.
  enough (H : forall tgt, In tgt targets ->
                forall receiver attr i,
                  tgt = AssignAttr receiver attr i ->
                  attribute_recorded class_name l attr i st')
    by (intros receiver attr i Hin; exact (H _ Hin _ _ _ eq_refl)).
  eapply (for_each_establishes _
            (fun tgt s => forall receiver attr i,
               tgt = AssignAttr receiver attr i ->
               attribute_recorded class_name l attr i s));
    [| |exact Hrun].
  - intros tgt s s' _ Htgt receiver attr i -> c Hc.
    run_inv.
    repeat match goal with
           | H : DictObj _ = DictObj _ |- _ => injection H as <-
           end.
    match goal with
    | H : attr_instance_of _ _ = Returns _ _ |- _ =>
        pose proof (attr_instance_of_value _ _ _ _ H) as ->;
        apply attr_instance_of_returns in H as <-
    end.
    match goal with
    | H : classes s !! class_name = Some _ |- _ => rename H into Hc0
    end.
    repeat match goal with
           | H : update_class _ _ _ = Returns _ _ |- _ => injection H as <-
           | H : update_method _ _ _ = Returns _ _ |- _ => injection H as <-
           end.
    simpl in Hc. rewrite Hc0 in Hc. injection Hc as <-. simpl.
    rewrite !lookup_total_insert_eq. simpl.
    split; apply elem_of_union_r, elem_of_singleton; reflexivity.
  - intros tgt y s s' _ Hrec Hy receiver attr i Heq.
    apply (one_target_run y value) in Hy.
    eapply attribute_recorded_mono; [| |exact (Hrec _ _ _ Heq)].
    + eapply frames_returns; [apply extract_self_attributes_store|exact Hy].
    + eapply frames_returns; [apply extract_self_attributes_registry|exact Hy].
Qed.



(** ** Class variables *)

Lemma class_variables_loop (class_name : string) (c : loc)
    (targets : list target) :
  forallb has_name targets = true ->
  forall st,
    classes st !! class_name = Some c ->
    exists st',
      for_each (fun tgt =>
                  attr_name <- target_name tgt ;;
                  c <- class_of class_name ;;
                  update_class c (add_variable attr_name))
        targets st = Returns tt st' /\
      registry_same st st' /\
      c_variables (class_dicts st' !!! c)
      = c_variables (class_dicts st !!! c)
        ∪ list_to_set (omap name_of_target targets).
Proof.
  induction targets as [|tgt rest IH]; intros Hall st Hc; simpl.
  - exists st. split; [reflexivity|]. split; [apply registry_same_refl|].
    rewrite union_empty_r_L. reflexivity.
  - simpl in Hall. apply andb_prop in Hall as [Htgt Hrest].
    assert (Hname : exists name,
               name_of_target tgt = Some name /\
               target_name tgt = ret name).
    { destruct tgt; try discriminate; eexists; split; reflexivity. }
    destruct Hname as (name & Hname & Hret). rewrite Hname, Hret.
    unfold bind at 1 2 3, ret, class_of, update_class.
    rewrite Hc. simpl.
    match goal with
    | |- context [for_each _ _ ?s] =>
        destruct (IH Hrest s Hc) as (st' & Hrun & Hsame & Hvars)
    end.
    exists st'. split; [exact Hrun|]. split; [exact Hsame|].
    rewrite Hvars. simpl.
    rewrite lookup_total_insert_eq. simpl. rewrite union_assoc_L. reflexivity.
Qed.

(** X13. In a class body of a registered class, an assignment of a name or
    of a constant to targets that all have a name returns and adds these
    names to the variables of the class: the name of a simple-name target,
    and [tuple] for a tuple target. *)
Theorem class_variables_are_recorded (targets : list target) (value : expr)
    (class_name : string) (c : loc) (st : state) :
  classes st !! class_name = Some c ->
  forallb has_name targets = true ->
  match value with
  | Call _ _ _ | Attribute _ _ => False
  | _ => True
  end ->
  exists st',
    extract_class_node class_name (Assign targets value) st
    = Returns tt st' /\
    c_variables (class_dicts st' !!! c)
    = c_variables (class_dicts st !!! c)
      ∪ list_to_set (omap name_of_target targets).
Proof.
  intros Hc Hall Hvalue. unfold extract_class_node.
  rewrite (bind_after_return (ret tt) _ st tt st eq_refl).
  destruct (class_variables_loop class_name c targets Hall st Hc)
    as (st' & Hrun & _ & Hvars).
  rewrite (bind_after_return _ _ _ _ _ Hrun).
  exists st'. split; [|exact Hvars].
  destruct value; try destruct Hvalue; reflexivity.
Qed.

Lemma class_variables_are_recorded_witness :
  exists st',
    extract_class_node "A"
      (Assign [AssignName "z"; TupleTarget [AssignName "x"; AssignName "y"]]
         (Name "p"))
      (final_state (bind_class "A" _CLASS_INIT init_state))
    = Returns tt st' /\
    c_variables (class_dicts st' !!! _CLASS_INIT)
    = c_variables
        (class_dicts (final_state (bind_class "A" _CLASS_INIT init_state))
         !!! _CLASS_INIT) ∪ list_to_set ["z"; "tuple"].
Proof.
  apply (class_variables_are_recorded
           [AssignName "z"; TupleTarget [AssignName "x"; AssignName "y"]]
           (Name "p") "A" _CLASS_INIT).
  - vm_compute. reflexivity.
  - reflexivity.
  - exact I.
Defined.

(** X14. In a class body of a registered class, an assignment with a target
    that has no name (an attribute, a subscript) makes the extraction raise
    [AttributeError], whatever is assigned. *)
Theorem class_body_target_without_name_raises (targets : list target)
    (value : expr) (class_name : string) (c : loc) (st : state) :
  classes st !! class_name = Some c ->
  forallb has_name targets = false ->
  exists st',
    extract_class_node class_name (Assign targets value) st
    = Raises AttributeError st'.
Proof.
  intros Hc Hall. unfold extract_class_node.
  rewrite (bind_after_return (ret tt) _ st tt st eq_refl).
  destruct (for_each_first_failure
              (fun tgt =>
                 attr_name <- target_name tgt ;;
                 c <- class_of class_name ;;
                 update_class c (add_variable attr_name))
              (fun s => classes s !! class_name = Some c)
              has_name (fun e => e = AttributeError) targets)
    with (st := st) as (e & st' & Hrun & ->); try assumption.
  - intros tgt s Hs Htgt. destruct tgt; try discriminate;
      unfold bind, target_name, ret, class_of, update_class; rewrite Hs;
      eexists; (split; [reflexivity | exact Hs]).
  - intros tgt s _ Htgt. destruct tgt; try discriminate;
      exists AttributeError, s; split; reflexivity.
  - exists st'. rewrite (bind_after_raise _ _ _ _ _ Hrun). reflexivity.
Qed.

Lemma class_body_target_without_name_raises_witness :
  exists st',
    extract_class_node "A"
      (Assign [AssignName "x"; AssignAttr (Name "a") "b" Uninferable]
         (Const "1"))
      (final_state (bind_class "A" _CLASS_INIT init_state))
    = Raises AttributeError st'.
Proof.
  apply (class_body_target_without_name_raises
           [AssignName "x"; AssignAttr (Name "a") "b" Uninferable]
           (Const "1") "A" _CLASS_INIT).
  - vm_compute. reflexivity.
  - reflexivity.
Defined.

(** ** Calls *)

(** X15. Given a method dictionary and a registered class name, the walk
    over a call returns with the text of the callee among the called of the
    dictionary; when that text has a dot and the part before the first dot
    is not the name of the class, that part is among the coupled classes of
    the class. *)
Theorem call_is_recorded_and_couples (func : expr) (args : list expr)
    (keywords : list (string * expr)) (l c : loc) (class_name : string)
    (st : state) :
  classes st !! class_name = Some c ->
  exists st',
    _extract_used_attributes_recursive (Call func args keywords) (DictObj l)
      class_name st = Returns tt st' /\
    as_string func ∈ m_called (method_dicts st' !!! l) /\
    (contains_dot (as_string func) = true ->
     split_dot_first (as_string func) <> class_name ->
     split_dot_first (as_string func)
     ∈ c_coupled_classes (class_dicts st' !!! c)).
Proof.
  intros Hc.
  destruct (walk_returns (Call func args keywords) l c class_name st Hc)
    as (st' & Hrun & _).
  exists st'. split; [exact Hrun|].
  simpl in Hrun. apply bind_returns in Hrun as ([] & st1 & Hargs & Hrun).
  assert (Hc1 : classes st1 !! class_name = Some c).
  { assert (Hsame : registry_same st st1).
    { eapply frames_returns; [|exact Hargs].
      apply (frames_for_each _ registry_same_refl registry_same_trans).
      intros x. apply walk_registry. }
    destruct Hsame as [-> _]. exact Hc. }
  split; [apply (call_tail_records _ _ _ _ _ Hrun)|].
  intros Hdot Hne. run_inv; try congruence.
  - repeat match goal with
           | H : update_method _ _ _ = Returns _ _ |- _ => injection H as <-
           | H : update_class _ _ _ = Returns _ _ |- _ => injection H as <-
           end.
    match goal with
    | H : classes _ !! class_name = Some _ |- _ =>
        simpl in H; rewrite Hc1 in H; injection H as <-
    end.
    simpl. rewrite lookup_total_insert_eq. simpl.
    apply elem_of_union_r, elem_of_singleton. reflexivity.
  - match goal with
    | H : negb _ = false |- _ =>
        apply negb_false_iff, String.eqb_eq in H; contradiction
    end.
Qed.

Lemma call_is_recorded_and_couples_witness :
  exists st',
    _extract_used_attributes_recursive
      (Call (Attribute self "helper") [] []) (DictObj _METHOD_INIT) "A"
      (final_state (bind_class "A" _CLASS_INIT init_state))
    = Returns tt st' /\
    "self.helper" ∈ m_called (method_dicts st' !!! _METHOD_INIT) /\
    "self" ∈ c_coupled_classes (class_dicts st' !!! _CLASS_INIT).
Proof.
  destruct (call_is_recorded_and_couples (Attribute self "helper") [] []
              _METHOD_INIT _CLASS_INIT "A"
              (final_state (bind_class "A" _CLASS_INIT init_state))
              ltac:(vm_compute; reflexivity))
    as (st' & Hrun & Hcalled & Hcoupled).
  exists st'. split; [exact Hrun|]. split; [exact Hcalled|].
  apply Hcoupled; [reflexivity | discriminate].
Defined.

(** ** More on the logical-line counter *)

Lemma statement_lloc_nonneg (s : stmt) : 0 <= statement_lloc s.
Proof.
  assert (Hblock : forall l, Forall (fun c => 0 <= statement_lloc c) l ->
                             0 <= block_lloc statement_lloc l).
  { induction 1 as [|c rest Hc _ IH]; simpl; lia. }
  induction s using compound_ind; simpl;
    repeat match goal with
           | H : Forall _ ?l |- _ => apply Hblock in H
           end; try lia.
  destruct s; simpl in *; try lia; congruence.
Qed.

Lemma block_lloc_nonneg (block : list stmt) :
  0 <= block_lloc statement_lloc block.
Proof.
  induction block as [|s rest IH]; simpl; [lia|].
  pose proof (statement_lloc_nonneg s). lia.
Qed.

(** X16. A logical-line count is never negative, and it is at least the
    number of listed simple statements standing directly in the body. *)
Theorem count_lloc_bounds (is_async : bool) (name : string)
    (args : list string) (body : list stmt) :
  exists k,
    count_lloc (StmtNode (method_def is_async name args body)) = Ok k /\
    0 <= k /\
    Z.of_nat (length (List.filter is_simple_statement body)) <= k.
Proof.
  exists (block_lloc statement_lloc body).
  split; [destruct is_async; simpl; apply count_children_lloc|].
  split; [apply block_lloc_nonneg|].
  induction body as [|s rest IH]; simpl; [lia|].
  pose proof (statement_lloc_nonneg s).
  destruct (is_simple_statement s) eqn:Hs; simpl length.
  - rewrite (statement_lloc_simple s Hs). lia.
  - lia.
Qed.

(** X17. The count of a body made of two parts is the sum of the counts of
    the parts. *)
Theorem count_lloc_of_concatenation (is_async : bool) (name : string)
    (args : list string) (body1 body2 : list stmt) :
  exists k1 k2,
    count_lloc (StmtNode (method_def is_async name args body1)) = Ok k1 /\
    count_lloc (StmtNode (method_def is_async name args body2)) = Ok k2 /\
    count_lloc (StmtNode (method_def is_async name args (body1 ++ body2)))
    = Ok (k1 + k2).
Proof.
  exists (block_lloc statement_lloc body1), (block_lloc statement_lloc body2).
  destruct is_async; simpl; rewrite !count_children_lloc, block_lloc_app;
    auto.
Qed.

(** X18. Statements of a method body that are neither listed simple
    statements nor compound statements, such as nested function and class
    definitions, count 0 whatever they hold: taking them out of the body
    leaves the count. *)
Theorem count_lloc_skips_definitions (is_async : bool) (name : string)
    (args : list string) (body : list stmt) :
  count_lloc
    (StmtNode (method_def is_async name args (List.filter is_counted body)))
  = count_lloc (StmtNode (method_def is_async name args body)).
Proof.
  assert (H : block_lloc statement_lloc (List.filter is_counted body)
              = block_lloc statement_lloc body).
  { induction body as [|s rest IH]; simpl; [reflexivity|].
    unfold is_counted at 1.
    destruct (is_simple_statement s) eqn:Hs; simpl; [rewrite IH; reflexivity|].
    destruct (is_compound_statement s) eqn:Hk; simpl;
      [rewrite IH; reflexivity|].
    rewrite IH, (statement_lloc_other s Hs Hk). reflexivity. }
  destruct is_async; simpl; rewrite !count_children_lloc, H; reflexivity.
Qed.

(** ** Witnesses for the aliasing and for the attribute rule *)

Lemma extract_code_data_binds_CLASS_INIT_witness :
  classes (final_state (extract_code_data test_module init_state))
  !! "MyParent" = Some 0%nat /\
  0%nat = _CLASS_INIT.
Proof.
  split; [vm_compute; reflexivity|].
  apply (extract_code_data_binds_CLASS_INIT test_module "MyParent" 0%nat).
  vm_compute. reflexivity.
Defined.

Lemma attribute_rule_on_method_dictionary_witness :
  exists st',
    _extract_used_attributes_recursive
      (Attribute (Name "other") "field") (DictObj _METHOD_INIT) "A"
      (final_state (bind_class "A" _CLASS_INIT init_state))
    = Returns tt st' /\
    m_accessed_attributes (method_dicts st' !!! _METHOD_INIT)
    = m_accessed_attributes
        (method_dicts (final_state (bind_class "A" _CLASS_INIT init_state))
         !!! _METHOD_INIT) ∪ {["other.field"]} /\
    c_coupled_classes (class_dicts st' !!! _CLASS_INIT)
    = c_coupled_classes
        (class_dicts (final_state (bind_class "A" _CLASS_INIT init_state))
         !!! _CLASS_INIT) ∪ {["other"]}.
Proof.
  apply (attribute_rule_on_method_dictionary (Name "other") "field"
           _METHOD_INIT _CLASS_INIT "A").
  vm_compute. reflexivity.
Defined.
